(** * t38c geofence layer: command assembly and event delivery

    A shallow embedding of [geofence.go] and [geofence_query_builder.go]:
    the two fixed-shape requests ([Request], [RoamRequest]), the fluent
    [GeofenceQueryBuilder], and the two ways of consuming a fence stream
    ([Fence] and [GeofenceQueryBuilder.Do]).

    Go values are modelled as follows.
    - [int] is [Z]; [strconv.Itoa] is the decimal rendering of a [Z].
    - [string] and [[]byte] are [string].
    - [error] is the text of the error; a nil error is [None].
    - A slice that is only built locally and then read (the [args] of a
      command under construction, the variadic arguments of a call) is a
      [list].
    - A slice stored in a builder value and appended to through copies of
      that value is a slice header over a store of backing arrays, with
      Go's rule for [append]: write in place while the capacity lasts,
      allocate a fresh array otherwise.
    - The pointer receivers of [Request] and [RoamRequest] mutate one
      object and return it; they are functions from the object's state to
      its next state.
    - The channel [ExecuteStream] returns is the list of raw payloads it
      yields before it closes.
    - The goroutine of [Fence], the channel it feeds and the consumer of
      that channel are a transition system whose runs are the
      interleavings of the task's and the consumer's moves.
    - The handler passed to [Do] acts on a state of the caller's.

    What the two files use but do not define is a parameter: the float
    formatter, the JSON decoder, the rendering of a command under [%s],
    the transport behind [Client], and the runtime's choice of capacity
    when [append] reallocates. *)

From stdpp Require Import base list strings pretty.
From Stdlib Require Import ZArith.

Local Open Scope string_scope.
Local Open Scope list_scope.

(* ================================================================== *)
(** * Slices over a store of backing arrays *)
(* ================================================================== *)

Module GoSlice.

(** The zero value of an element type: what a freshly allocated array
    holds beyond its written part. *)
Class Zero (A : Type) := zero : A.

(** The capacity the runtime would like for a reallocated array, given
    the old capacity and the number of elements that must fit.  The
    language only promises that the new array is large enough. *)
Class GrowPolicy := growcap : nat -> nat -> nat.

(** Slice header.  No slice of this program is a reslice, so the
    header's window always starts at the array's first element. *)
Record Slice := { ptr : nat; len : nat; cap : nat }.

(** The nil slice: no elements, no capacity; its [ptr] is never read. *)
Definition nil : Slice := {| ptr := 0; len := 0; cap := 0 |}.

(** Backing arrays, addressed by their position in the store. *)
Abbreviation Store A := (list (list A)).

Section Ops.
Context {A : Type} {ZeroA : Zero A} {Grow : GrowPolicy}.

Definition array_at (st : Store A) (p : nat) : list A :=
  default [] (st !! p).

(** [s[i]] *)
Definition index (st : Store A) (s : Slice) (i : nat) : A :=
  default zero (array_at st (ptr s) !! i).

(** The elements a [range] over [s] visits. *)
Definition elems (st : Store A) (s : Slice) : list A :=
  take (len s) (array_at st (ptr s)).

(** [append(s, xs...)]: while [xs] fits the capacity it is written into
    the array behind [s], after the last element of [s]; otherwise a
    fresh array, no smaller than needed, receives the elements of [s]
    followed by [xs]. *)
Definition append (st : Store A) (s : Slice) (xs : list A)
  : Slice * Store A :=
  let need := len s + length xs in
  if decide (need <= cap s) then
    ({| ptr := ptr s; len := need; cap := cap s |},
     <[ptr s := list_inserts (len s) xs (array_at st (ptr s))]> st)
  else
    let newcap := Nat.max need (growcap (cap s) need) in
    ({| ptr := length st; len := need; cap := newcap |},
     st ++ [elems st s ++ xs ++ replicate (newcap - need) zero]).

(** The header describes a window that lies inside its array. *)
Definition wf (st : Store A) (s : Slice) : Prop :=
  len s <= cap s /\ cap s <= length (array_at st (ptr s)).
End Ops.

(** The growth rule of the gc runtime for slices below its 256-element
    threshold: take what is needed when that exceeds twice the old
    capacity, double otherwise. *)
Definition nextslicecap : GrowPolicy :=
  fun oldCap newLen =>
    if decide (oldCap + oldCap < newLen) then newLen else oldCap + oldCap.

End GoSlice.

(* ================================================================== *)
(** * Command model and query value types *)
(* ================================================================== *)

Definition error := string.

Record Command := { Name : string; Args : list string }.

Definition NewCommand (name : string) (args : list string) : Command :=
  {| Name := name; Args := args |}.

Definition DetectAction := string.
Definition NotifyCommand := string.
Definition SearchOption := Command.
Definition OutputFormat := Command.
Definition SearchArea := Command.

#[export] Instance Command_zero : GoSlice.Zero Command :=
  {| Name := ""; Args := [] |}.
#[export] Instance string_zero : GoSlice.Zero string := "".

(** [strconv.Itoa] *)
Definition Itoa (i : Z) : string := pretty i.

(** The package's float formatter, which is not part of the two files. *)
Class FloatString (float64 : Type) := floatString : float64 -> string.

(** [strings.Join] *)
Definition strings_Join (elems : list string) (sep : string) : string :=
  match elems with
  | [] => ""
  | [e] => e
  | e :: rest => fold_left (fun b s => (b +:+ sep) +:+ s) rest e
  end.

(** [encoding/json.Unmarshal] into a value of type [T]. *)
Class Unmarshal (T : Type) := json_Unmarshal : string -> T + error.

(** The values of the longest prefix of [events] that decodes. *)
Fixpoint decoded {T : Type} {Dec : Unmarshal T} (events : list string) : list T :=
  match events with
  | [] => []
  | event :: rest =>
      match json_Unmarshal event with
      | inr _ => []
      | inl v => v :: decoded rest
      end
  end.

(** The error of the first payload of [events] that does not decode. *)
Fixpoint decode_error {T : Type} {Dec : Unmarshal T} (events : list string)
  : option error :=
  match events with
  | [] => None
  | event :: rest =>
      match json_Unmarshal (T := T) event with
      | inr err => Some err
      | inl _ => decode_error rest
      end
  end.

(** [raw] decodes to [v]. *)
Definition decodes_to {T : Type} {Dec : Unmarshal T} (raw : string) (v : T) : Prop :=
  json_Unmarshal raw = inl v.

(** How [fmt] renders a command under the verb [%s]. *)
Class CommandVerb := fmt_Command : Command -> string.

(** [context.Context]: a token handed to the transport untouched. *)
Inductive Context := ctx (id : nat).

(** The transport: [ExecuteStream] answers with the raw events the
    subscription will yield before the stream closes, and a start error. *)
Record Client := {
  ExecuteStream : Context -> string -> list string -> list string * option error
}.

Class GeofenceRequestable (T : Type) := GeofenceCommand : T -> Command.

(* ================================================================== *)
(** * Request: fixed-area and point fences *)
(* ================================================================== *)

Module Request.

Record t := {
  Cmd : string;
  Key : string;
  Area : Command;
  OutputFormat : OutputFormat;
  DetectActions : list DetectAction;
  Options : list SearchOption
}.

Definition GeofenceCommand (req : t) : Command :=
  let args := [] in
  let args := args ++ [Key req] in
  let args :=
    fold_left (fun args opt => (args ++ [Name opt]) ++ Args opt)
              (Options req) args in
  let args := args ++ ["FENCE"] in
  let args :=
    if (0 <? length (DetectActions req))%nat then
      let args := args ++ ["DETECT"] in
      let '(actions, _) :=
        fold_left
          (fun '(actions, first) action =>
             let actions := if negb first then actions +:+ "," else actions in
             (actions +:+ action, false))
          (DetectActions req) ("", true) in
      args ++ [actions]
    else args in
  let args :=
    if (0 <? String.length (Name (OutputFormat req)))%nat then
      (args ++ [Name (OutputFormat req)]) ++ Args (OutputFormat req)
    else args in
  let args := args ++ [Name (Area req)] in
  let args := args ++ Args (Area req) in
  NewCommand (Cmd req) args.

Definition Actions (req : t) (actions : list DetectAction) : t :=
  {| Cmd := Cmd req; Key := Key req; Area := Area req;
     OutputFormat := OutputFormat req;
     DetectActions := actions;
     Options := Options req |}.

Definition WithOptions (req : t) (opts : list SearchOption) : t :=
  {| Cmd := Cmd req; Key := Key req; Area := Area req;
     OutputFormat := OutputFormat req;
     DetectActions := DetectActions req;
     Options := opts |}.

Definition Format (req : t) (fmt : Command) : t :=
  {| Cmd := Cmd req; Key := Key req; Area := Area req;
     OutputFormat := fmt;
     DetectActions := DetectActions req;
     Options := Options req |}.

End Request.

#[export] Instance Request_requestable : GeofenceRequestable Request.t :=
  Request.GeofenceCommand.

Definition GeofenceWithin (key : string) (area : SearchArea) : Request.t :=
  {| Request.Cmd := "WITHIN"; Request.Key := key; Request.Area := area;
     Request.OutputFormat := GoSlice.zero;
     Request.DetectActions := []; Request.Options := [] |}.

Definition GeofenceIntersects (key : string) (area : SearchArea) : Request.t :=
  {| Request.Cmd := "INTERSECTS"; Request.Key := key; Request.Area := area;
     Request.OutputFormat := GoSlice.zero;
     Request.DetectActions := []; Request.Options := [] |}.

Definition GeofenceNearby {float64 : Type} {Fmt : FloatString float64}
    (key : string) (lat lon meters : float64) : Request.t :=
  {| Request.Cmd := "NEARBY"; Request.Key := key;
     Request.Area :=
       NewCommand "POINT"
         [floatString lat; floatString lon; floatString meters];
     Request.OutputFormat := GoSlice.zero;
     Request.DetectActions := []; Request.Options := [] |}.

(* ================================================================== *)
(** * RoamRequest: moving-target fences *)
(* ================================================================== *)

Module RoamRequest.

Record t := {
  Key : string;
  Target : string;
  Pattern : string;
  Meters : Z;
  OutputFormat : OutputFormat;
  DetectActions : list DetectAction;
  Options : list SearchOption
}.

Definition GeofenceCommand (req : t) : Command :=
  let args := [] in
  let args := args ++ [Key req] in
  let args :=
    fold_left (fun args opt => (args ++ [Name opt]) ++ Args opt)
              (Options req) args in
  let args := args ++ ["FENCE"] in
  let args :=
    if (0 <? length (DetectActions req))%nat then
      let args := args ++ ["DETECT"] in
      let '(actions, _) :=
        fold_left
          (fun '(actions, first) action =>
             let actions := if negb first then actions +:+ "," else actions in
             (actions +:+ action, false))
          (DetectActions req) ("", true) in
      args ++ [actions]
    else args in
  let args :=
    if (0 <? String.length (Name (OutputFormat req)))%nat then
      (args ++ [Name (OutputFormat req)]) ++ Args (OutputFormat req)
    else args in
  let args :=
    args ++ ["ROAM"; Target req; Pattern req; Itoa (Meters req)] in
  NewCommand "NEARBY" args.

Definition Actions (req : t) (actions : list DetectAction) : t :=
  {| Key := Key req; Target := Target req; Pattern := Pattern req;
     Meters := Meters req; OutputFormat := OutputFormat req;
     DetectActions := actions;
     Options := Options req |}.

Definition WithOptions (req : t) (opts : list SearchOption) : t :=
  {| Key := Key req; Target := Target req; Pattern := Pattern req;
     Meters := Meters req; OutputFormat := OutputFormat req;
     DetectActions := DetectActions req;
     Options := opts |}.

Definition Format (req : t) (fmt : Command) : t :=
  {| Key := Key req; Target := Target req; Pattern := Pattern req;
     Meters := Meters req; OutputFormat := fmt;
     DetectActions := DetectActions req;
     Options := Options req |}.

End RoamRequest.

#[export] Instance RoamRequest_requestable : GeofenceRequestable RoamRequest.t :=
  RoamRequest.GeofenceCommand.

Definition GeofenceRoam (key target pattern : string) (meters : Z)
  : RoamRequest.t :=
  {| RoamRequest.Key := key; RoamRequest.Target := target;
     RoamRequest.Pattern := pattern; RoamRequest.Meters := meters;
     RoamRequest.OutputFormat := GoSlice.zero;
     RoamRequest.DetectActions := []; RoamRequest.Options := [] |}.

(* ================================================================== *)
(** * GeofenceQueryBuilder: the fluent builder *)
(* ================================================================== *)

(** The backing arrays the builder's three accumulated lists live in. *)
Record Mem := {
  commandArrays : GoSlice.Store Command;
  actionArrays : GoSlice.Store DetectAction;
  notifyArrays : GoSlice.Store NotifyCommand
}.

Definition empty_mem : Mem :=
  {| commandArrays := []; actionArrays := []; notifyArrays := [] |}.

Module GeofenceQueryBuilder.

Import GoSlice.

Record t := {
  client : Client;
  isRoamQuery : bool;
  cmd : string;
  key : string;
  area : Command;
  target : string;
  pattern : string;
  meters : Z;
  outputFormat : OutputFormat;
  detectActions : Slice;
  notifyCommands : Slice;
  searchOpts : Slice
}.

(** Field assignments on the receiver's copy. *)
Definition set_detectActions (query : t) (s : Slice) : t :=
  {| client := client query; isRoamQuery := isRoamQuery query;
     cmd := cmd query; key := key query; area := area query;
     target := target query; pattern := pattern query;
     meters := meters query; outputFormat := outputFormat query;
     detectActions := s;
     notifyCommands := notifyCommands query;
     searchOpts := searchOpts query |}.

Definition set_notifyCommands (query : t) (s : Slice) : t :=
  {| client := client query; isRoamQuery := isRoamQuery query;
     cmd := cmd query; key := key query; area := area query;
     target := target query; pattern := pattern query;
     meters := meters query; outputFormat := outputFormat query;
     detectActions := detectActions query;
     notifyCommands := s;
     searchOpts := searchOpts query |}.

Definition set_searchOpts (query : t) (s : Slice) : t :=
  {| client := client query; isRoamQuery := isRoamQuery query;
     cmd := cmd query; key := key query; area := area query;
     target := target query; pattern := pattern query;
     meters := meters query; outputFormat := outputFormat query;
     detectActions := detectActions query;
     notifyCommands := notifyCommands query;
     searchOpts := s |}.

Definition set_outputFormat (query : t) (fmt : Command) : t :=
  {| client := client query; isRoamQuery := isRoamQuery query;
     cmd := cmd query; key := key query; area := area query;
     target := target query; pattern := pattern query;
     meters := meters query; outputFormat := fmt;
     detectActions := detectActions query;
     notifyCommands := notifyCommands query;
     searchOpts := searchOpts query |}.

Definition set_commandArrays (m : Mem) (st : Store Command) : Mem :=
  {| commandArrays := st; actionArrays := actionArrays m;
     notifyArrays := notifyArrays m |}.

Definition set_actionArrays (m : Mem) (st : Store DetectAction) : Mem :=
  {| commandArrays := commandArrays m; actionArrays := st;
     notifyArrays := notifyArrays m |}.

Definition set_notifyArrays (m : Mem) (st : Store NotifyCommand) : Mem :=
  {| commandArrays := commandArrays m; actionArrays := actionArrays m;
     notifyArrays := st |}.

Definition newGeofenceQueryBuilder
    (client : Client) (cmd key : string) (area : Command) : t :=
  {| client := client; isRoamQuery := false;
     cmd := cmd; key := key; area := area;
     target := ""; pattern := ""; meters := 0%Z;
     outputFormat := zero;
     detectActions := nil; notifyCommands := nil; searchOpts := nil |}.

Definition newGeofenceRoamQueryBuilder
    (client : Client) (key target pattern : string) (meters : Z) : t :=
  {| client := client; isRoamQuery := true;
     cmd := ""; key := key; area := zero;
     target := target; pattern := pattern; meters := meters;
     outputFormat := zero;
     detectActions := nil; notifyCommands := nil; searchOpts := nil |}.

Definition args (query : t) (m : Mem) : list string :=
  let args := [] in
  let args :=
    fold_left (fun args opt => (args ++ [Name opt]) ++ Args opt)
              (elems (commandArrays m) (searchOpts query)) args in
  let args := args ++ ["FENCE"] in
  let args :=
    if (0 <? len (detectActions query))%nat then
      let args := args ++ ["DETECT"] in
      let actions :=
        map (fun i => index (actionArrays m) (detectActions query) i)
            (seq 0 (len (detectActions query))) in
      args ++ [strings_Join actions ","]
    else args in
  let args :=
    if (0 <? len (notifyCommands query))%nat then
      let args := args ++ ["COMMANDS"] in
      let actions :=
        map (fun i => index (notifyArrays m) (notifyCommands query) i)
            (seq 0 (len (notifyCommands query))) in
      args ++ [strings_Join actions ","]
    else args in
  let args :=
    if (0 <? String.length (Name (outputFormat query)))%nat then
      (args ++ [Name (outputFormat query)]) ++ Args (outputFormat query)
    else args in
  args.

Definition toCmd (query : t) (m : Mem) : Command :=
  let args' := [] in
  if isRoamQuery query then
    let args' := args' ++ [key query] in
    let args' := args' ++ args query m in
    let args' :=
      args' ++ ["ROAM"; target query; pattern query; Itoa (meters query)] in
    NewCommand "NEARBY" args'
  else
    let args' := args' ++ [key query] in
    let args' := args' ++ args query m in
    let args' := args' ++ [Name (area query)] in
    let args' := args' ++ Args (area query) in
    NewCommand (cmd query) args'.

Section Methods.
Context {Grow : GrowPolicy}.

Definition Actions (query : t) (actions : list DetectAction) (m : Mem)
  : t * Mem :=
  let '(s, st) := append (actionArrays m) (detectActions query) actions in
  (set_detectActions query s, set_actionArrays m st).

Definition Commands (query : t) (notifyCommands' : list NotifyCommand)
    (m : Mem) : t * Mem :=
  let '(s, st) :=
    append (notifyArrays m) (notifyCommands query) notifyCommands' in
  (set_notifyCommands query s, set_notifyArrays m st).

Definition Asc (query : t) (m : Mem) : t * Mem :=
  let '(s, st) :=
    append (commandArrays m) (searchOpts query) [NewCommand "ASC" []] in
  (set_searchOpts query s, set_commandArrays m st).

Definition Desc (query : t) (m : Mem) : t * Mem :=
  let '(s, st) :=
    append (commandArrays m) (searchOpts query) [NewCommand "DESC" []] in
  (set_searchOpts query s, set_commandArrays m st).

Definition NoFields (query : t) (m : Mem) : t * Mem :=
  let '(s, st) :=
    append (commandArrays m) (searchOpts query) [NewCommand "NOFIELDS" []] in
  (set_searchOpts query s, set_commandArrays m st).

Definition Clip (query : t) (m : Mem) : t * Mem :=
  let '(s, st) :=
    append (commandArrays m) (searchOpts query) [NewCommand "CLIP" []] in
  (set_searchOpts query s, set_commandArrays m st).

Definition Distance (query : t) (m : Mem) : t * Mem :=
  let '(s, st) :=
    append (commandArrays m) (searchOpts query) [NewCommand "DISTANCE" []] in
  (set_searchOpts query s, set_commandArrays m st).

Definition Cursor (query : t) (cursor : Z) (m : Mem) : t * Mem :=
  let '(s, st) :=
    append (commandArrays m) (searchOpts query)
           [NewCommand "CURSOR" [Itoa cursor]] in
  (set_searchOpts query s, set_commandArrays m st).

Definition Limit (query : t) (limit : Z) (m : Mem) : t * Mem :=
  let '(s, st) :=
    append (commandArrays m) (searchOpts query)
           [NewCommand "LIMIT" [Itoa limit]] in
  (set_searchOpts query s, set_commandArrays m st).

Definition Sparse (query : t) (sparse : Z) (m : Mem) : t * Mem :=
  let '(s, st) :=
    append (commandArrays m) (searchOpts query)
           [NewCommand "SPARSE" [Itoa sparse]] in
  (set_searchOpts query s, set_commandArrays m st).

Definition Where {float64 : Type} {Fmt : FloatString float64}
    (query : t) (field : string) (min max : float64) (m : Mem)
  : t * Mem :=
  let '(s, st) :=
    append (commandArrays m) (searchOpts query)
           [NewCommand "WHERE" [field; floatString min; floatString max]] in
  (set_searchOpts query s, set_commandArrays m st).

Definition Wherein {float64 : Type} {Fmt : FloatString float64}
    (query : t) (field : string) (values : list float64) (m : Mem)
  : t * Mem :=
  let args := [] in
  let args := args ++ [Itoa (Z.of_nat (length values))] in
  let args :=
    fold_left (fun args val => args ++ [floatString val]) values args in
  let '(s, st) :=
    append (commandArrays m) (searchOpts query) [NewCommand "WHEREIN" args] in
  (set_searchOpts query s, set_commandArrays m st).

Definition Match (query : t) (pattern : string) (m : Mem) : t * Mem :=
  let '(s, st) :=
    append (commandArrays m) (searchOpts query)
           [NewCommand "MATCH" [pattern]] in
  (set_searchOpts query s, set_commandArrays m st).

Definition Format (query : t) (fmt : Command) : t :=
  set_outputFormat query fmt.
End Methods.

Section Do.
Context {GeofenceEvent : Type} {DecEvent : Unmarshal GeofenceEvent} {Verb : CommandVerb}.
Context {World : Type}.

(** The body of [for event := range events]: the handler acts on the
    caller's state [w]; a payload that does not decode ends the loop
    and the call. *)
Fixpoint range_events (handler : GeofenceEvent -> World -> World)
    (events : list string) (w : World) : option error * World :=
  match events with
  | [] => (None, w)
  | event :: events =>
      match json_Unmarshal event with
      | inr err =>
          (Some ("json unmarshal geofence response: " +:+ err), w)
      | inl resp => range_events handler events (handler resp w)
      end
  end.

Definition Do (query : t) (ctx : Context)
    (handler : GeofenceEvent -> World -> World) (m : Mem) (w : World)
  : option error * World :=
  let cmd := toCmd query m in
  let '(events, err) :=
    ExecuteStream (client query) ctx (Name cmd) (Args cmd) in
  match err with
  | Some err =>
      (Some ("command: " +:+ fmt_Command cmd +:+ ": " +:+ err), w)
  | None => range_events handler events w
  end.
End Do.

End GeofenceQueryBuilder.

(* ================================================================== *)
(** * Fence: delivery through a bounded queue *)
(* ================================================================== *)

Module Fence.

Section Pipeline.
Context {Response : Type} {DecResp : Unmarshal Response}.

(** Where the background task stands: about to receive from [events],
    holding a decoded response it is sending on [ch], or returned. *)
Inductive task :=
| Receiving
| Sending (resp : Response)
| Returned.

(** The task, the queue it feeds, and the consumer reading the queue. *)
Record state := {
  events : list string;
  goroutine : task;
  ch : list Response;
  closed : bool;
  logged : list string;
  received : list Response;
  sawClose : bool
}.

(** [make(chan Response, 10)] *)
Definition capacity : nat := 10.

(** One move of the background task.  A send on a full queue does not
    move; the deferred [close(ch)] runs as the task returns. *)
Definition task_step (s : state) : state :=
  match goroutine s with
  | Receiving =>
      match events s with
      | [] =>
          {| events := []; goroutine := Returned; ch := ch s;
             closed := true; logged := logged s;
             received := received s; sawClose := sawClose s |}
      | event :: rest =>
          match json_Unmarshal event with
          | inr err =>
              {| events := rest; goroutine := Returned; ch := ch s;
                 closed := true;
                 logged := logged s ++ ["bad event: " +:+ err];
                 received := received s; sawClose := sawClose s |}
          | inl resp =>
              {| events := rest; goroutine := Sending resp; ch := ch s;
                 closed := closed s; logged := logged s;
                 received := received s; sawClose := sawClose s |}
          end
      end
  | Sending resp =>
      if (length (ch s) <? capacity)%nat then
        {| events := events s; goroutine := Receiving;
           ch := ch s ++ [resp];
           closed := closed s; logged := logged s;
           received := received s; sawClose := sawClose s |}
      else s
  | Returned => s
  end.

(** One receive by the consumer: the oldest queued response, or the
    closure once the queue is closed and drained; otherwise it waits. *)
Definition consumer_step (s : state) : state :=
  match ch s with
  | resp :: rest =>
      {| events := events s; goroutine := goroutine s; ch := rest;
         closed := closed s; logged := logged s;
         received := received s ++ [resp]; sawClose := sawClose s |}
  | [] =>
      if closed s then
        {| events := events s; goroutine := goroutine s; ch := [];
           closed := true; logged := logged s;
           received := received s; sawClose := true |}
      else s
  end.

Inductive actor := Task | Consumer.

Definition step (a : actor) (s : state) : state :=
  match a with
  | Task => task_step s
  | Consumer => consumer_step s
  end.

(** An interleaving of the two, in schedule order. *)
Definition run (schedule : list actor) (s : state) : state :=
  fold_left (fun s a => step a s) schedule s.

(** The state [Fence] leaves behind when the stream has started. *)
Definition started (events : list string) : state :=
  {| events := events; goroutine := Receiving; ch := [];
     closed := false; logged := []; received := []; sawClose := false |}.

Definition Fence {T : Type} {Req : GeofenceRequestable T}
    (client : Client) (ctx : Context) (req : T)
  : option state * option error :=
  let cmd := GeofenceCommand req in
  let '(events, err) := ExecuteStream client ctx (Name cmd) (Args cmd) in
  match err with
  | Some err => (None, Some err)
  | None => (Some (started events), None)
  end.

(** The responses the task has yet to put on the queue. *)
Definition in_flight (s : state) : list Response :=
  match goroutine s with
  | Receiving => decoded (events s)
  | Sending resp => resp :: decoded (events s)
  | Returned => []
  end.

(** What every reachable state satisfies, [all] being the responses the
    stream decodes to: nothing is lost or reordered on the way to the
    consumer, the queue is closed exactly when the task has returned,
    the consumer sees the closure only on a closed and drained queue,
    and the queue never holds more than its capacity. *)
Definition inv (all : list Response) (s : state) : Prop :=
  received s ++ ch s ++ in_flight s = all
  /\ (closed s = true <-> goroutine s = Returned)
  /\ (sawClose s = true -> closed s = true /\ ch s = [])
  /\ length (ch s) <= capacity.

(** How many moves the task still has to make before it returns. *)
Definition moves_left (s : state) : nat :=
  match goroutine s with
  | Receiving => 2 * length (events s) + 1
  | Sending _ => 2 * length (events s) + 2
  | Returned => 0
  end.

(** A schedule under which the consumer keeps reading: it lets the
    task decode and send each event, then takes it off the queue. *)
Fixpoint drain (events : list string) : list actor :=
  match events with
  | [] => [Task; Consumer]
  | event :: rest =>
      match json_Unmarshal event with
      | inr _ => [Task; Consumer]
      | inl _ => [Task; Task; Consumer] ++ drain rest
      end
  end.

End Pipeline.

End Fence.

(* ================================================================== *)
(** * Calls to the builder's search-option methods *)
(* ================================================================== *)

Section Calls.
Context {Grow : GoSlice.GrowPolicy} {float64 : Type} {Fmt : FloatString float64}.

(** One call to a search-option method, with its arguments. *)
Inductive option_call :=
| CallAsc
| CallDesc
| CallNoFields
| CallClip
| CallDistance
| CallCursor (cursor : Z)
| CallLimit (limit : Z)
| CallSparse (sparse : Z)
| CallWhere (field : string) (min max : float64)
| CallWherein (field : string) (values : list float64)
| CallMatch (pattern : string).

Definition call (c : option_call) (query : GeofenceQueryBuilder.t) (m : Mem)
  : GeofenceQueryBuilder.t * Mem :=
  match c with
  | CallAsc => GeofenceQueryBuilder.Asc query m
  | CallDesc => GeofenceQueryBuilder.Desc query m
  | CallNoFields => GeofenceQueryBuilder.NoFields query m
  | CallClip => GeofenceQueryBuilder.Clip query m
  | CallDistance => GeofenceQueryBuilder.Distance query m
  | CallCursor cursor => GeofenceQueryBuilder.Cursor query cursor m
  | CallLimit limit => GeofenceQueryBuilder.Limit query limit m
  | CallSparse sparse => GeofenceQueryBuilder.Sparse query sparse m
  | CallWhere field min max => GeofenceQueryBuilder.Where query field min max m
  | CallWherein field values => GeofenceQueryBuilder.Wherein query field values m
  | CallMatch pattern => GeofenceQueryBuilder.Match query pattern m
  end.

(** The fragment a call leaves in the accumulated list. *)
Definition fragment (c : option_call) : Command :=
  match c with
  | CallAsc => NewCommand "ASC" []
  | CallDesc => NewCommand "DESC" []
  | CallNoFields => NewCommand "NOFIELDS" []
  | CallClip => NewCommand "CLIP" []
  | CallDistance => NewCommand "DISTANCE" []
  | CallCursor cursor => NewCommand "CURSOR" [Itoa cursor]
  | CallLimit limit => NewCommand "LIMIT" [Itoa limit]
  | CallSparse sparse => NewCommand "SPARSE" [Itoa sparse]
  | CallWhere field min max =>
      NewCommand "WHERE" [field; floatString min; floatString max]
  | CallWherein _ values =>
      NewCommand "WHEREIN"
        (Itoa (Z.of_nat (length values)) :: map floatString values)
  | CallMatch pattern => NewCommand "MATCH" [pattern]
  end.

(** A chain of calls, each applied to the value the previous returned. *)
Definition chain (cs : list option_call) (query : GeofenceQueryBuilder.t)
    (m : Mem) : GeofenceQueryBuilder.t * Mem :=
  fold_left (fun '(query, m) c => call c query m) cs (query, m).
End Calls.

(* ================================================================== *)
(** * Sample collaborators and values *)
(* ================================================================== *)

(** A transport that answers every subscription the same way. *)
Definition fixed_client (events : list string) (err : option error) : Client :=
  {| ExecuteStream := fun _ _ _ => (events, err) |}.

(** A decoder that rejects the empty payload and reads any other payload
    as its length. *)
Definition length_decoder : Unmarshal nat :=
  fun raw =>
    match raw with
    | "" => inr "unexpected end of JSON input"
    | _ => inl (String.length raw)
    end.

(** Commands rendered as their name followed by their arguments. *)
Definition spaced_command : CommandVerb :=
  fun c => String.concat " " (Name c :: Args c).

(** Whole-number floats, rendered without a fraction. *)
Definition whole_floats : FloatString Z := fun v => pretty v.

Definition sample_area : SearchArea :=
  NewCommand "BOUNDS" ["30"; "-110"; "40"; "-100"].

Definition sample_actions : list DetectAction := ["enter"; "exit"; "enter"].

Definition sample_request : Request.t :=
  Request.Actions
    (Request.WithOptions (GeofenceWithin "fleet" sample_area)
                         [NewCommand "MATCH" ["truck*"]])
    sample_actions.

Definition sample_roam : RoamRequest.t :=
  RoamRequest.Actions (GeofenceRoam "fleet" "agents" "*" 500) sample_actions.

(** A roam builder with detect actions, built in an empty store. *)
Definition sample_query : GeofenceQueryBuilder.t * Mem :=
  GeofenceQueryBuilder.Actions (Grow := GoSlice.nextslicecap)
    (GeofenceQueryBuilder.newGeofenceRoamQueryBuilder
       (fixed_client [] None) "fleet" "agents" "*" 500)
    sample_actions empty_mem.

(** A fresh area builder talking to [client]. *)
Definition sample_builder (client : Client) : GeofenceQueryBuilder.t :=
  GeofenceQueryBuilder.newGeofenceQueryBuilder client "WITHIN" "fleet"
    sample_area.

(** A handler that records the events it is called with. *)
Definition record_events (resp : nat) (trace : list nat) : list nat :=
  trace ++ [resp].

(* ================================================================== *)
(** * The assembly order, as the specification words it *)
(* ================================================================== *)

(** Each option's name then its arguments, in the order supplied. *)
Definition option_tokens (opts : list Command) : list string :=
  flat_map (fun opt => Name opt :: Args opt) opts.

(** A keyword and the comma-joined tags, when there is any tag. *)
Definition joined_tokens (keyword : string) (tags : list string)
  : list string :=
  match tags with
  | [] => []
  | _ :: _ => [keyword; String.concat "," tags]
  end.

(** The format's name then its arguments, when the name is not empty. *)
Definition format_tokens (fmt : OutputFormat) : list string :=
  match Name fmt with
  | "" => []
  | _ => Name fmt :: Args fmt
  end.

(** The last [n] elements of a list. *)
Definition last_n {A : Type} (n : nat) (l : list A) : list A :=
  drop (length l - n) l.

(** A builder whose three slices lie inside their backing arrays. *)
Definition builder_wf (m : Mem) (query : GeofenceQueryBuilder.t) : Prop :=
  GoSlice.wf (commandArrays m) (GeofenceQueryBuilder.searchOpts query)
  /\ GoSlice.wf (actionArrays m) (GeofenceQueryBuilder.detectActions query)
  /\ GoSlice.wf (notifyArrays m) (GeofenceQueryBuilder.notifyCommands query).

(* ================================================================== *)
(** * Chains of builder calls, and what they add up to *)
(* ================================================================== *)

(** The command a query shape stands for: name, key, options, detect
    actions, notify commands, output format, and the shape's tail. *)
Definition assemble (name key : string) (opts : list Command)
    (acts : list DetectAction) (ntfs : list NotifyCommand)
    (fmt : OutputFormat) (tail : list string) : Command :=
  NewCommand name
    ([key] ++ option_tokens opts ++ ["FENCE"]
     ++ joined_tokens "DETECT" acts ++ joined_tokens "COMMANDS" ntfs
     ++ format_tokens fmt ++ tail).

(** The command name and the tail a builder's mode selects. *)
Definition shape_of (query : GeofenceQueryBuilder.t) : string * list string :=
  if GeofenceQueryBuilder.isRoamQuery query then
    ("NEARBY",
     ["ROAM"; GeofenceQueryBuilder.target query;
      GeofenceQueryBuilder.pattern query;
      Itoa (GeofenceQueryBuilder.meters query)])
  else
    (GeofenceQueryBuilder.cmd query,
     Name (GeofenceQueryBuilder.area query)
       :: Args (GeofenceQueryBuilder.area query)).

(** The fixed-shape requests that carry what a builder has accumulated. *)
Definition as_request (m : Mem) (query : GeofenceQueryBuilder.t) : Request.t :=
  {| Request.Cmd := GeofenceQueryBuilder.cmd query;
     Request.Key := GeofenceQueryBuilder.key query;
     Request.Area := GeofenceQueryBuilder.area query;
     Request.OutputFormat := GeofenceQueryBuilder.outputFormat query;
     Request.DetectActions :=
       GoSlice.elems (actionArrays m)
                     (GeofenceQueryBuilder.detectActions query);
     Request.Options :=
       GoSlice.elems (commandArrays m)
                     (GeofenceQueryBuilder.searchOpts query) |}.

Definition as_roam_request (m : Mem) (query : GeofenceQueryBuilder.t)
  : RoamRequest.t :=
  {| RoamRequest.Key := GeofenceQueryBuilder.key query;
     RoamRequest.Target := GeofenceQueryBuilder.target query;
     RoamRequest.Pattern := GeofenceQueryBuilder.pattern query;
     RoamRequest.Meters := GeofenceQueryBuilder.meters query;
     RoamRequest.OutputFormat := GeofenceQueryBuilder.outputFormat query;
     RoamRequest.DetectActions :=
       GoSlice.elems (actionArrays m)
                     (GeofenceQueryBuilder.detectActions query);
     RoamRequest.Options :=
       GoSlice.elems (commandArrays m)
                     (GeofenceQueryBuilder.searchOpts query) |}.

(** [s0] views no cell of a shared array beyond the end of [s]. *)
Definition not_past (s0 s : GoSlice.Slice) : Prop :=
  GoSlice.ptr s0 = GoSlice.ptr s -> GoSlice.len s0 <= GoSlice.len s.

(** [query0] is [query] or a value [query] was derived from. *)
Definition ancestor (query0 query : GeofenceQueryBuilder.t) : Prop :=
  not_past (GeofenceQueryBuilder.searchOpts query0)
           (GeofenceQueryBuilder.searchOpts query)
  /\ not_past (GeofenceQueryBuilder.detectActions query0)
              (GeofenceQueryBuilder.detectActions query)
  /\ not_past (GeofenceQueryBuilder.notifyCommands query0)
              (GeofenceQueryBuilder.notifyCommands query).

Section Fluent.
Context {Grow : GoSlice.GrowPolicy} {float64 : Type} {Fmt : FloatString float64}.

(** One call to a builder method, with its arguments. *)
Inductive builder_call :=
| CallOption (c : option_call (float64 := float64))
| CallActions (actions : list DetectAction)
| CallCommands (notifyCommands : list NotifyCommand)
| CallFormat (fmt : OutputFormat).

Definition invoke (c : builder_call) (query : GeofenceQueryBuilder.t)
    (m : Mem) : GeofenceQueryBuilder.t * Mem :=
  match c with
  | CallOption c => call c query m
  | CallActions actions => GeofenceQueryBuilder.Actions query actions m
  | CallCommands notifyCommands =>
      GeofenceQueryBuilder.Commands query notifyCommands m
  | CallFormat fmt => (GeofenceQueryBuilder.Format query fmt, m)
  end.

(** A chain of calls, each applied to the value the previous returned. *)
Definition fluent (cs : list builder_call) (query : GeofenceQueryBuilder.t)
    (m : Mem) : GeofenceQueryBuilder.t * Mem :=
  fold_left (fun '(query, m) c => invoke c query m) cs (query, m).

(** What a chain contributes to each accumulated list, in call order. *)
Definition added_options (cs : list builder_call) : list Command :=
  flat_map (fun c => match c with CallOption c => [fragment c] | _ => [] end)
           cs.

Definition added_actions (cs : list builder_call) : list DetectAction :=
  flat_map (fun c => match c with CallActions l => l | _ => [] end) cs.

Definition added_commands (cs : list builder_call) : list NotifyCommand :=
  flat_map (fun c => match c with CallCommands l => l | _ => [] end) cs.

(** The format in force after a chain: that of the last [Format] call. *)
Definition final_format (fmt0 : OutputFormat) (cs : list builder_call)
  : OutputFormat :=
  fold_left (fun fmt c => match c with CallFormat f => f | _ => fmt end)
            cs fmt0.
End Fluent.

(* ================================================================== *)
(** * What the queue's consumer and the log get to see *)
(* ================================================================== *)

Section Observations.
Context {Response : Type} {DecResp : Unmarshal Response}.

(** What the consumer has observed: the responses, and the closure. *)
Definition observed (s : Fence.state (Response := Response))
  : list Response * bool :=
  (Fence.received s, Fence.sawClose s).

(** How many payloads the task has taken off a stream of [events0]. *)
Definition taken (events0 : list string)
    (s : Fence.state (Response := Response)) : nat :=
  length events0 - length (Fence.events s).


(** The task has taken a prefix of the stream, and no more payloads
    than the consumer holds, the queue holds, and the task itself holds
    (one at most). *)
Definition paced (events0 : list string)
    (s : Fence.state (Response := Response)) : Prop :=
  (exists consumed, events0 = consumed ++ Fence.events s)
  /\ taken events0 s
     <= length (Fence.received s) + length (Fence.ch s)
        + match Fence.goroutine s with Fence.Receiving => 0 | _ => 1 end.


(** Two pipelines in step: one on a stream that decodes to its end, one
    on the same stream followed by [bad :: rest]. *)
Definition twin (bad : string) (rest : list string)
    (s1 s2 : Fence.state (Response := Response)) : Prop :=
  Fence.received s1 = Fence.received s2
  /\ Fence.ch s1 = Fence.ch s2
  /\ Fence.closed s1 = Fence.closed s2
  /\ Fence.sawClose s1 = Fence.sawClose s2
  /\ Fence.goroutine s1 = Fence.goroutine s2
  /\ (Fence.goroutine s1 <> Fence.Returned ->
      Fence.events s2 = Fence.events s1 ++ bad :: rest
      /\ decode_error (T := Response) (Fence.events s1) = None).
End Observations.

(** Whether [raw] decodes into a value of type [T]. *)
Definition accepted (T : Type) {Dec : Unmarshal T} (raw : string) : bool :=
  match json_Unmarshal (T := T) raw with
  | inl _ => true
  | inr _ => false
  end.

(** A second sample decoder, into another type: it rejects the empty
    payload and reads any other payload as its text. *)
Definition text_decoder : Unmarshal string :=
  fun raw =>
    match raw with
    | "" => inr "unexpected end of JSON input"
    | _ => inl raw
    end.

(** Sample values: a builder with three options in an array of four,
    and one with no options. *)
Definition roomy_query : GeofenceQueryBuilder.t * Mem :=
  chain (Grow := GoSlice.nextslicecap) (Fmt := whole_floats)
        [CallAsc; CallNoFields; CallMatch "truck*"]
        (sample_builder (fixed_client [] None)) empty_mem.

Definition sample_calls : list (builder_call (float64 := Z)) :=
  [CallOption (CallLimit 5); CallActions ["enter"];
   CallFormat (NewCommand "POINTS" []); CallCommands ["set"; "del"];
   CallOption (CallWhere "speed" 10%Z 90%Z); CallActions ["exit"];
   CallFormat (NewCommand "HASHES" ["7"])].

(* ================================================================== *)
(** * Slices: what [append] promises *)
(* ================================================================== *)

Section SliceFacts.
Import GoSlice.
Context {A : Type} {ZeroA : Zero A} {Grow : GrowPolicy}.
Implicit Types (st : Store A) (s : Slice) (xs : list A).

Lemma array_at_insert st p q arr :
  p < length st ->
  array_at (<[p := arr]> st) q = if decide (p = q) then arr else array_at st q.
Proof.
  intros Hp. unfold array_at. destruct (decide (p = q)) as [->|Hne].
  - by rewrite list_lookup_insert_eq.
  - by rewrite list_lookup_insert_ne.
Qed.

Lemma array_at_fresh st arr : array_at (st ++ [arr]) (length st) = arr.
Proof. unfold array_at. by rewrite list_lookup_middle. Qed.

Lemma array_at_old st arr p :
  p < length st -> array_at (st ++ [arr]) p = array_at st p.
Proof. intros Hp. unfold array_at. by rewrite lookup_app_l. Qed.

Lemma array_at_out st p : length st <= p -> array_at st p = [].
Proof. intros Hp. unfold array_at. by rewrite lookup_ge_None_2. Qed.

Lemma take_inserts_tail (arr : list A) n xs :
  n + length xs <= length arr ->
  take (n + length xs) (list_inserts n xs arr) = take n arr ++ xs.
Proof.
  intros Hlen. apply list_eq. intros i.
  destruct (decide (i < n)) as [Hi|Hi].
  - rewrite lookup_take_lt by lia.
    rewrite list_lookup_inserts_lt by lia.
    rewrite lookup_app_l by (rewrite length_take; lia).
    by rewrite lookup_take_lt by lia.
  - destruct (decide (i < n + length xs)) as [Hj|Hj].
    + rewrite lookup_take_lt by lia.
      rewrite list_lookup_inserts by lia.
      rewrite lookup_app_r by (rewrite length_take; lia).
      rewrite length_take. f_equal. lia.
    + rewrite lookup_take_ge by lia.
      symmetry. apply lookup_ge_None_2.
      rewrite length_app, length_take. lia.
Qed.

Lemma take_inserts_head (arr : list A) n k xs :
  k <= n -> take k (list_inserts n xs arr) = take k arr.
Proof.
  intros Hk. apply list_eq. intros i.
  destruct (decide (i < k)) as [Hi|Hi].
  - rewrite !lookup_take_lt by lia.
    by rewrite list_lookup_inserts_lt by lia.
  - by rewrite !lookup_take_ge by lia.
Qed.

(** A slice with room left points into the store. *)
Lemma wf_ptr_lt st s : wf st s -> 0 < cap s -> ptr s < length st.
Proof.
  intros [_ Hcap] Hpos. destruct (decide (ptr s < length st)); [done|].
  rewrite array_at_out in Hcap by lia. simpl in Hcap. lia.
Qed.

Lemma length_elems st s : wf st s -> length (elems st s) = len s.
Proof. intros [Hl Hc]. unfold elems. rewrite length_take. lia. Qed.

(** The slice [append] returns holds the old elements, then the new. *)
Lemma append_elems st s xs :
  wf st s ->
  elems (append st s xs).2 (append st s xs).1 = elems st s ++ xs.
Proof.
  intros Hwf. pose proof Hwf as [Hl Hc]. unfold append.
  destruct (decide (len s + length xs <= cap s)) as [Hfit|Hgrow]; simpl.
  - destruct xs as [|x xs].
    + simpl. rewrite Nat.add_0_r, app_nil_r. unfold elems at 1. simpl.
      destruct (decide (ptr s < length st)) as [Hp|Hp].
      * rewrite array_at_insert by done. by rewrite decide_True.
      * by rewrite list_insert_ge by lia.
    + assert (ptr s < length st) as Hp
        by (apply wf_ptr_lt; [done | simpl in Hfit; lia]).
      unfold elems; simpl. rewrite array_at_insert by done.
      rewrite decide_True by done.
      apply (take_inserts_tail _ _ (x :: xs)). simpl in *. lia.
  - unfold elems at 1; simpl. rewrite array_at_fresh.
    rewrite app_assoc. rewrite take_app_length'; [done|].
    rewrite length_app, length_elems by done. done.
Qed.

(** ... and lies inside its array. *)
Lemma append_wf st s xs :
  wf st s -> wf (append st s xs).2 (append st s xs).1.
Proof.
  intros Hwf. pose proof Hwf as [Hl Hc]. unfold append, wf.
  destruct (decide (len s + length xs <= cap s)) as [Hfit|Hgrow]; simpl.
  - split; [done|].
    destruct (decide (ptr s < length st)) as [Hp|Hp].
    + rewrite array_at_insert by done. rewrite decide_True by done.
      by rewrite length_inserts.
    + by rewrite list_insert_ge by lia.
  - split; [lia|]. rewrite array_at_fresh.
    rewrite !length_app, length_replicate, length_elems by done. lia.
Qed.

(** [append] leaves every other view of the store as it was, as long
    as that view ends at or before the appended slice's old length
    when the append writes in place and the two share an array. *)
Lemma append_frame st s xs s0 :
  wf st s -> wf st s0 ->
  (len s + length xs <= cap s -> ptr s0 = ptr s -> len s0 <= len s) ->
  elems (append st s xs).2 s0 = elems st s0.
Proof.
  intros Hwf Hwf0 Hview. unfold append.
  destruct (decide (len s + length xs <= cap s)) as [Hfit|Hgrow]; simpl.
  - unfold elems.
    destruct (decide (ptr s < length st)) as [Hp|Hp];
      [|by rewrite list_insert_ge by lia].
    rewrite array_at_insert by done.
    destruct (decide (ptr s = ptr s0)) as [Heq|Hne]; [|done].
    rewrite <- Heq. apply take_inserts_head. auto.
  - unfold elems.
    destruct (decide (ptr s0 < length st)) as [Hp|Hp].
    + by rewrite array_at_old.
    + destruct Hwf0 as [Hl0 Hc0]. rewrite array_at_out in Hc0 by lia.
      simpl in Hc0. replace (len s0) with 0 by lia. done.
Qed.

Lemma append_frame_wf st s xs s0 :
  wf st s -> wf st s0 -> wf (append st s xs).2 s0.
Proof.
  intros Hwf [Hl0 Hc0]. split; [done|]. unfold append.
  destruct (decide (len s + length xs <= cap s)) as [Hfit|Hgrow]; simpl.
  - destruct (decide (ptr s < length st)) as [Hp|Hp];
      [|by rewrite list_insert_ge by lia].
    rewrite array_at_insert by done.
    destruct (decide (ptr s = ptr s0)) as [Heq|Hne]; [|done].
    rewrite length_inserts. by rewrite Heq.
  - destruct (decide (ptr s0 < length st)) as [Hp|Hp].
    + by rewrite array_at_old.
    + rewrite array_at_out in Hc0 by lia. simpl in Hc0. lia.
Qed.

(** With room left, [append] writes into the shared array: a slice
    appended earlier from the same header reads the new element. *)
Lemma append_in_place st s xs :
  len s + length xs <= cap s ->
  (append st s xs).1 = {| ptr := ptr s; len := len s + length xs; cap := cap s |}.
Proof. intros Hfit. unfold append. by rewrite decide_True. Qed.

(** Reading [s[0]], ..., [s[len-1]] one by one is ranging over [s]. *)
Lemma map_index_elems st s :
  wf st s -> map (index st s) (seq 0 (len s)) = elems st s.
Proof.
  intros [Hl Hc]. apply list_eq. intros i. rewrite list_lookup_fmap.
  unfold elems, index.
  destruct (decide (i < len s)) as [Hi|Hi].
  - rewrite lookup_seq_lt by done. simpl. rewrite lookup_take_lt by done.
    destruct (lookup_lt_is_Some_2 (array_at st (ptr s)) i) as [x Hx]; [lia|].
    by rewrite Hx.
  - rewrite lookup_seq_ge by lia. simpl. by rewrite lookup_take_ge by lia.
Qed.

Lemma wf_nil st : wf st nil.
Proof. split; simpl; lia. Qed.

Lemma elems_nil st : elems st nil = [].
Proof. done. Qed.
End SliceFacts.


(* ================================================================== *)
(** * Joining tags and flattening options *)
(* ================================================================== *)

Lemma string_app_assoc (a b c : string) : (a +:+ b) +:+ c = a +:+ b +:+ c.
Proof.
  induction a as [|ch a IH]; [done|].
  change (String ch ((a +:+ b) +:+ c) = String ch (a +:+ b +:+ c)).
  by f_equal.
Qed.

Lemma concat_head_app (sep a b : string) (l : list string) :
  String.concat sep ((a +:+ b) :: l) = a +:+ String.concat sep (b :: l).
Proof. destruct l; simpl; [done | by rewrite string_app_assoc]. Qed.

Lemma concat_cons2 (sep a x : string) (l : list string) :
  String.concat sep (a :: x :: l) = a +:+ sep +:+ String.concat sep (x :: l).
Proof. reflexivity. Qed.

(** The loop of [strings.Join], started on its first element. *)
Lemma join_fold (sep : string) (l : list string) (acc : string) :
  fold_left (fun b s => (b +:+ sep) +:+ s) l acc = String.concat sep (acc :: l).
Proof.
  revert acc. induction l as [|x l IH]; intros acc; [done|].
  cbn [fold_left].
  by rewrite IH, string_app_assoc, !concat_head_app, concat_cons2.
Qed.

Lemma strings_Join_concat (l : list string) (sep : string) :
  strings_Join l sep = String.concat sep l.
Proof.
  destruct l as [|x [|y l]]; [done | done |].
  unfold strings_Join. apply join_fold.
Qed.

(** The loop of the fixed-shape requests, once past its first element. *)
Lemma flag_fold (l : list string) (acc : string) :
  fold_left
    (fun '(actions, first) action =>
       let actions := if negb first then actions +:+ "," else actions in
       (actions +:+ action, false))
    l (acc, false)
  = (String.concat "," (acc :: l), false).
Proof.
  revert acc. induction l as [|x l IH]; intros acc; [done|].
  cbn [fold_left negb].
  by rewrite IH, string_app_assoc, !concat_head_app, concat_cons2.
Qed.

Lemma flag_loop_concat (l : list string) :
  fold_left
    (fun '(actions, first) action =>
       let actions := if negb first then actions +:+ "," else actions in
       (actions +:+ action, false))
    l ("", true)
  = (String.concat "," l, match l with [] => true | _ => false end).
Proof. destruct l as [|x l]; [done|]. cbn [fold_left negb]. apply flag_fold. Qed.

Lemma options_fold (opts : list Command) (acc : list string) :
  fold_left (fun args opt => (args ++ [Name opt]) ++ Args opt) opts acc
  = acc ++ option_tokens opts.
Proof.
  revert acc. induction opts as [|opt opts IH]; intros acc; simpl.
  - by rewrite app_nil_r.
  - rewrite IH. by rewrite <- !app_assoc.
Qed.

Lemma format_branch (fmt : OutputFormat) (acc : list string) :
  (if (0 <? String.length (Name fmt))%nat
   then (acc ++ [Name fmt]) ++ Args fmt else acc)
  = acc ++ format_tokens fmt.
Proof.
  unfold format_tokens. destruct (Name fmt); simpl.
  - by rewrite app_nil_r.
  - by rewrite <- app_assoc.
Qed.

Lemma option_tokens_app (l1 l2 : list Command) :
  option_tokens (l1 ++ l2) = option_tokens l1 ++ option_tokens l2.
Proof. unfold option_tokens. apply flat_map_app. Qed.

(** The arguments [Request.GeofenceCommand] assembles, in closed form. *)
Lemma Request_args (req : Request.t) :
  Request.GeofenceCommand req
  = NewCommand (Request.Cmd req)
      (Request.Key req :: option_tokens (Request.Options req)
       ++ ["FENCE"] ++ joined_tokens "DETECT" (Request.DetectActions req)
       ++ format_tokens (Request.OutputFormat req)
       ++ Name (Request.Area req) :: Args (Request.Area req)).
Proof.
  unfold Request.GeofenceCommand. cbv zeta. f_equal.
  rewrite format_branch, options_fold, flag_loop_concat.
  destruct (Request.DetectActions req) as [|a acts]; simpl;
    rewrite <- ?app_assoc; simpl; rewrite <- ?app_assoc; done.
Qed.

(** ... and [RoamRequest.GeofenceCommand]. *)
Lemma RoamRequest_args (req : RoamRequest.t) :
  RoamRequest.GeofenceCommand req
  = NewCommand "NEARBY"
      (RoamRequest.Key req :: option_tokens (RoamRequest.Options req)
       ++ ["FENCE"] ++ joined_tokens "DETECT" (RoamRequest.DetectActions req)
       ++ format_tokens (RoamRequest.OutputFormat req)
       ++ ["ROAM"; RoamRequest.Target req; RoamRequest.Pattern req;
           Itoa (RoamRequest.Meters req)]).
Proof.
  unfold RoamRequest.GeofenceCommand. cbv zeta. f_equal.
  rewrite format_branch, options_fold, flag_loop_concat.
  destruct (RoamRequest.DetectActions req) as [|a acts]; simpl;
    rewrite <- ?app_assoc; simpl; rewrite <- ?app_assoc; done.
Qed.

Lemma joined_branch (keyword : string) (st : list (list string))
    (s : GoSlice.Slice) (acc : list string) :
  GoSlice.wf st s ->
  (if (0 <? GoSlice.len s)%nat
   then (acc ++ [keyword])
        ++ [strings_Join
              (map (fun i => GoSlice.index st s i) (seq 0 (GoSlice.len s))) ","]
   else acc)
  = acc ++ joined_tokens keyword (GoSlice.elems st s).
Proof.
  intros Hwf. rewrite (map_index_elems st s Hwf), strings_Join_concat.
  pose proof (length_elems st s Hwf) as Hlen.
  destruct (GoSlice.elems st s) as [|x l]; simpl in Hlen; rewrite <- Hlen; simpl.
  - by rewrite app_nil_r.
  - by rewrite <- app_assoc.
Qed.

(** The tokens [GeofenceQueryBuilder.args] assembles, in closed form. *)
Lemma builder_args (m : Mem) (query : GeofenceQueryBuilder.t) :
  builder_wf m query ->
  GeofenceQueryBuilder.args query m
  = option_tokens
      (GoSlice.elems (commandArrays m) (GeofenceQueryBuilder.searchOpts query))
    ++ ["FENCE"]
    ++ joined_tokens "DETECT"
         (GoSlice.elems (actionArrays m)
                        (GeofenceQueryBuilder.detectActions query))
    ++ joined_tokens "COMMANDS"
         (GoSlice.elems (notifyArrays m)
                        (GeofenceQueryBuilder.notifyCommands query))
    ++ format_tokens (GeofenceQueryBuilder.outputFormat query).
Proof.
  intros (Hs & Ha & Hn). unfold GeofenceQueryBuilder.args. cbv zeta.
  rewrite format_branch, options_fold.
  rewrite (joined_branch "COMMANDS" _ _ _ Hn).
  rewrite (joined_branch "DETECT" _ _ _ Ha).
  simpl. by rewrite <- !app_assoc.
Qed.

Lemma last_n_app {A : Type} (l tail : list A) :
  last_n (length tail) (l ++ tail) = tail.
Proof.
  unfold last_n. rewrite length_app.
  replace (length l + length tail - length tail) with (length l) by lia.
  by rewrite drop_app_length.
Qed.

(* ================================================================== *)
(** * The builder's methods *)
(* ================================================================== *)

Section BuilderFacts.
Import GoSlice GeofenceQueryBuilder.
Context {Grow : GrowPolicy} {float64 : Type} {Fmt : FloatString float64}.
Implicit Types (m : Mem) (query : GeofenceQueryBuilder.t).

Lemma wherein_fold (values : list float64) (acc : list string) :
  fold_left (fun args val => args ++ [floatString val]) values acc
  = acc ++ map floatString values.
Proof.
  revert acc. induction values as [|v values IH]; intros acc; simpl.
  - by rewrite app_nil_r.
  - rewrite IH. by rewrite <- app_assoc.
Qed.

(** Every search-option method appends its fragment to [searchOpts] of
    the receiver's copy and returns that copy. *)
Lemma call_unfold (c : option_call) query m :
  call c query m
  = (set_searchOpts query
       (append (commandArrays m) (searchOpts query) [fragment c]).1,
     set_commandArrays m
       (append (commandArrays m) (searchOpts query) [fragment c]).2).
Proof.
  destruct c; simpl;
    unfold Asc, Desc, NoFields, Clip, Distance, Cursor, Limit, Sparse,
           Where, Wherein, Match;
    cbv zeta; rewrite ?wherein_fold; simpl;
    by destruct (append _ _ _).
Qed.

Lemma call_wf (c : option_call) query m :
  builder_wf m query -> builder_wf (call c query m).2 (call c query m).1.
Proof.
  intros (Hs & Ha & Hn). rewrite call_unfold. simpl.
  split; [|done]. by apply append_wf.
Qed.

Lemma call_searchOpts (c : option_call) query m :
  builder_wf m query ->
  elems (commandArrays (call c query m).2) (searchOpts (call c query m).1)
  = elems (commandArrays m) (searchOpts query) ++ [fragment c].
Proof.
  intros (Hs & Ha & Hn). rewrite call_unfold. simpl. by apply append_elems.
Qed.

(** A builder value obtained before the call still reads its own
    options afterwards: the call writes past the end of its view. *)
Lemma call_frame (c : option_call) query m query0 :
  builder_wf m query -> builder_wf m query0 ->
  (len (searchOpts query) < cap (searchOpts query) ->
   ptr (searchOpts query0) = ptr (searchOpts query) ->
   len (searchOpts query0) <= len (searchOpts query)) ->
  builder_wf (call c query m).2 query0
  /\ elems (commandArrays (call c query m).2) (searchOpts query0)
     = elems (commandArrays m) (searchOpts query0)
  /\ actionArrays (call c query m).2 = actionArrays m
  /\ notifyArrays (call c query m).2 = notifyArrays m.
Proof.
  intros (Hs & Ha & Hn) (Hs0 & Ha0 & Hn0) Hview. rewrite call_unfold. simpl.
  split; [|split; [|done]].
  - split; [|done]. by apply append_frame_wf.
  - apply append_frame; [done | done |]. simpl. intros Hfit. apply Hview. lia.
Qed.

(** With room left in the array, the call writes in place: it keeps the
    address and returns a view one element longer. *)
Lemma call_in_place (c : option_call) query m :
  len (searchOpts query) < cap (searchOpts query) ->
  searchOpts (call c query m).1
  = {| ptr := ptr (searchOpts query);
       len := len (searchOpts query) + 1;
       cap := cap (searchOpts query) |}.
Proof.
  intros Hroom. rewrite call_unfold. simpl.
  apply append_in_place. simpl. lia.
Qed.

Lemma Actions_unfold query (acts : list DetectAction) m :
  Actions query acts m
  = (set_detectActions query
       (append (actionArrays m) (detectActions query) acts).1,
     set_actionArrays m
       (append (actionArrays m) (detectActions query) acts).2).
Proof. unfold Actions. by destruct (append _ _ _). Qed.

Lemma Commands_unfold query (cmds : list NotifyCommand) m :
  Commands query cmds m
  = (set_notifyCommands query
       (append (notifyArrays m) (notifyCommands query) cmds).1,
     set_notifyArrays m
       (append (notifyArrays m) (notifyCommands query) cmds).2).
Proof. unfold Commands. by destruct (append _ _ _). Qed.

Lemma Actions_wf query acts m :
  builder_wf m query -> builder_wf (Actions query acts m).2 (Actions query acts m).1.
Proof.
  intros (Hs & Ha & Hn). rewrite Actions_unfold. simpl.
  split; [done|]. split; [|done]. by apply append_wf.
Qed.

Lemma Actions_detectActions query acts m :
  builder_wf m query ->
  elems (actionArrays (Actions query acts m).2)
        (detectActions (Actions query acts m).1)
  = elems (actionArrays m) (detectActions query) ++ acts.
Proof.
  intros (Hs & Ha & Hn). rewrite Actions_unfold. simpl. by apply append_elems.
Qed.

Lemma Commands_wf query cmds m :
  builder_wf m query ->
  builder_wf (Commands query cmds m).2 (Commands query cmds m).1.
Proof.
  intros (Hs & Ha & Hn). rewrite Commands_unfold. simpl.
  split; [done|]. split; [done|]. by apply append_wf.
Qed.

Lemma Commands_notifyCommands query cmds m :
  builder_wf m query ->
  elems (notifyArrays (Commands query cmds m).2)
        (notifyCommands (Commands query cmds m).1)
  = elems (notifyArrays m) (notifyCommands query) ++ cmds.
Proof.
  intros (Hs & Ha & Hn). rewrite Commands_unfold. simpl. by apply append_elems.
Qed.

(** The command [toCmd] assembles, in closed form. *)
Lemma toCmd_closed m query :
  builder_wf m query ->
  toCmd query m
  = let tokens :=
      option_tokens (elems (commandArrays m) (searchOpts query))
      ++ ["FENCE"]
      ++ joined_tokens "DETECT" (elems (actionArrays m) (detectActions query))
      ++ joined_tokens "COMMANDS"
           (elems (notifyArrays m) (notifyCommands query))
      ++ format_tokens (outputFormat query) in
    if isRoamQuery query then
      NewCommand "NEARBY"
        (key query :: tokens
         ++ ["ROAM"; target query; pattern query; Itoa (meters query)])
    else
      NewCommand (cmd query)
        (key query :: tokens ++ Name (area query) :: Args (area query)).
Proof.
  intros Hwf. unfold toCmd. rewrite (builder_args m query Hwf). cbv zeta.
  destruct (isRoamQuery query); simpl; f_equal; f_equal;
    by rewrite <- ?app_assoc.
Qed.

Lemma new_builder_wf m (client : Client) (cmd key : string) (area : Command) :
  builder_wf m (newGeofenceQueryBuilder client cmd key area).
Proof. repeat split; simpl; lia. Qed.

Lemma new_roam_builder_wf m (client : Client) (key target pattern : string)
    (meters : Z) :
  builder_wf m (newGeofenceRoamQueryBuilder client key target pattern meters).
Proof. repeat split; simpl; lia. Qed.
End BuilderFacts.

(* ================================================================== *)
(** * Command assembly *)
(* ================================================================== *)

Section Assembly.
Import GoSlice GeofenceQueryBuilder.

(** C5.  A fixed-area request assembles to the command named by its
    [Cmd] field, whose arguments are the key, each option's name and
    arguments in the order supplied, ["FENCE"], then ["DETECT"] and the
    joined actions when there are actions, then the output format's name
    and arguments when that name is not empty, then the area's name and
    arguments.  A bare [GeofenceWithin "fleet" area] assembles to
    [WITHIN] with arguments ["fleet"; "FENCE"; area name; area args]. *)
Theorem Request_command_layout (req : Request.t) (area : SearchArea) :
  Name (Request.GeofenceCommand req) = Request.Cmd req
  /\ Args (Request.GeofenceCommand req)
     = [Request.Key req]
       ++ option_tokens (Request.Options req)
       ++ ["FENCE"]
       ++ joined_tokens "DETECT" (Request.DetectActions req)
       ++ format_tokens (Request.OutputFormat req)
       ++ [Name (Request.Area req)] ++ Args (Request.Area req)
  /\ Request.GeofenceCommand (GeofenceWithin "fleet" area)
     = NewCommand "WITHIN" (["fleet"; "FENCE"; Name area] ++ Args area).
Proof.
  rewrite !Request_args. repeat split.
Qed.

(** C4.  A roam request, and a builder in roam mode, assemble to a
    command named ["NEARBY"] whose last four arguments are ["ROAM"], the
    target, the pattern and the decimal rendering of the meters. *)
Theorem roam_command_name_and_tail (req : RoamRequest.t)
    (query : GeofenceQueryBuilder.t) (m : Mem) :
  isRoamQuery query = true ->
  (Name (RoamRequest.GeofenceCommand req) = "NEARBY"
   /\ last_n 4 (Args (RoamRequest.GeofenceCommand req))
      = ["ROAM"; RoamRequest.Target req; RoamRequest.Pattern req;
         Itoa (RoamRequest.Meters req)])
  /\ (Name (toCmd query m) = "NEARBY"
      /\ last_n 4 (Args (toCmd query m))
         = ["ROAM"; target query; pattern query; Itoa (meters query)]).
Proof.
  intros Hroam. split.
  - rewrite RoamRequest_args. split; [done|]. simpl Args.
    rewrite !app_comm_cons, !app_assoc.
    apply (last_n_app _ [_; _; _; _]).
  - unfold toCmd. rewrite Hroam. cbv zeta. split; [done|]. simpl Args.
    rewrite app_comm_cons.
    apply (last_n_app _ [_; _; _; _]).
Qed.

Lemma roam_command_name_and_tail_witness :
  (Name (RoamRequest.GeofenceCommand sample_roam) = "NEARBY"
   /\ last_n 4 (Args (RoamRequest.GeofenceCommand sample_roam))
      = ["ROAM"; "agents"; "*"; "500"])
  /\ (Name (toCmd sample_query.1 sample_query.2) = "NEARBY"
      /\ last_n 4 (Args (toCmd sample_query.1 sample_query.2))
         = ["ROAM"; "agents"; "*"; "500"]).
Proof.
  apply (roam_command_name_and_tail sample_roam sample_query.1 sample_query.2).
  reflexivity.
Defined.

(** C6.  When the list of detect actions is not empty, the token that
    follows ["DETECT"] is the actions joined with [","] in the order
    given, duplicates included, in the commands of [Request],
    [RoamRequest] and the builder alike. *)
Theorem detect_token_is_ordered_join (acts : list DetectAction)
    (req : Request.t) (roam : RoamRequest.t)
    (query : GeofenceQueryBuilder.t) (m : Mem) :
  acts <> [] ->
  Request.DetectActions req = acts ->
  RoamRequest.DetectActions roam = acts ->
  builder_wf m query ->
  elems (actionArrays m) (detectActions query) = acts ->
  (exists rest,
     Args (Request.GeofenceCommand req)
     = (Request.Key req :: option_tokens (Request.Options req) ++ ["FENCE"])
       ++ "DETECT" :: String.concat "," acts :: rest)
  /\ (exists rest,
        Args (RoamRequest.GeofenceCommand roam)
        = (RoamRequest.Key roam
             :: option_tokens (RoamRequest.Options roam) ++ ["FENCE"])
          ++ "DETECT" :: String.concat "," acts :: rest)
  /\ (exists rest,
        Args (toCmd query m)
        = (key query
             :: option_tokens (elems (commandArrays m) (searchOpts query))
             ++ ["FENCE"])
          ++ "DETECT" :: String.concat "," acts :: rest).
Proof.
  intros Hne Hreq Hroam Hwf Hq.
  destruct acts as [|a acts]; [done|]. repeat split.
  - rewrite Request_args, Hreq. simpl. eexists.
    rewrite <- app_assoc. reflexivity.
  - rewrite RoamRequest_args, Hroam. simpl. eexists.
    rewrite <- app_assoc. reflexivity.
  - rewrite (toCmd_closed m query Hwf), Hq. cbv zeta.
    destruct (isRoamQuery query); simpl; eexists;
      rewrite <- !app_assoc; simpl; reflexivity.
Qed.

Lemma detect_token_is_ordered_join_witness :
  (exists rest,
     Args (Request.GeofenceCommand sample_request)
     = ["fleet"; "MATCH"; "truck*"; "FENCE"]
       ++ "DETECT" :: "enter,exit,enter" :: rest)
  /\ (exists rest,
        Args (RoamRequest.GeofenceCommand sample_roam)
        = ["fleet"; "FENCE"] ++ "DETECT" :: "enter,exit,enter" :: rest)
  /\ (exists rest,
        Args (toCmd sample_query.1 sample_query.2)
        = ["fleet"; "FENCE"] ++ "DETECT" :: "enter,exit,enter" :: rest).
Proof.
  apply (detect_token_is_ordered_join sample_actions sample_request
           sample_roam sample_query.1 sample_query.2).
  - discriminate.
  - reflexivity.
  - reflexivity.
  - vm_compute. repeat split; lia.
  - reflexivity.
Defined.
End Assembly.

(* ================================================================== *)
(** * Setters that overwrite, methods that append *)
(* ================================================================== *)

Section Setters.
Import GoSlice GeofenceQueryBuilder.
Context {Grow : GrowPolicy} {float64 : Type} {Fmt : FloatString float64}.

(** C10.  On [Request] and [RoamRequest] a second call to [WithOptions],
    [Actions] or [Format] replaces what the first one stored: the field
    holds the second call's argument, and the command carries the second
    call's options, actions and format only.  On the builder, [Actions],
    [Commands] and the search-option methods add to what is already
    accumulated. *)
Theorem fixed_setters_overwrite_builder_appends
    (req : Request.t) (roam : RoamRequest.t)
    (o1 o2 : list SearchOption) (a1 a2 : list DetectAction)
    (f1 f2 : OutputFormat)
    (query : GeofenceQueryBuilder.t) (m : Mem)
    (n1 n2 : list NotifyCommand) (c1 c2 : option_call) :
  builder_wf m query ->
  (Request.WithOptions (Request.WithOptions req o1) o2
   = Request.WithOptions req o2
   /\ Request.Actions (Request.Actions req a1) a2 = Request.Actions req a2
   /\ Request.Format (Request.Format req f1) f2 = Request.Format req f2
   /\ Args (Request.GeofenceCommand
              (Request.Actions
                 (Request.WithOptions
                    (Request.Actions (Request.WithOptions req o1) a1) o2)
                 a2))
      = [Request.Key req] ++ option_tokens o2 ++ ["FENCE"]
        ++ joined_tokens "DETECT" a2
        ++ format_tokens (Request.OutputFormat req)
        ++ [Name (Request.Area req)] ++ Args (Request.Area req)
   /\ Request.Options (Request.WithOptions (Request.WithOptions req o1) o2)
      = o2
   /\ Request.DetectActions (Request.Actions (Request.Actions req a1) a2)
      = a2
   /\ Request.OutputFormat (Request.Format (Request.Format req f1) f2) = f2
   /\ Request.GeofenceCommand
        (Request.Format
           (Request.Actions
              (Request.WithOptions
                 (Request.Format
                    (Request.Actions (Request.WithOptions req o1) a1) f1)
                 o2)
              a2)
           f2)
      = NewCommand (Request.Cmd req)
          ([Request.Key req] ++ option_tokens o2 ++ ["FENCE"]
           ++ joined_tokens "DETECT" a2 ++ format_tokens f2
           ++ [Name (Request.Area req)] ++ Args (Request.Area req)))
  /\ (RoamRequest.WithOptions (RoamRequest.WithOptions roam o1) o2
      = RoamRequest.WithOptions roam o2
      /\ RoamRequest.Actions (RoamRequest.Actions roam a1) a2
         = RoamRequest.Actions roam a2
      /\ RoamRequest.Format (RoamRequest.Format roam f1) f2
         = RoamRequest.Format roam f2
      /\ Args (RoamRequest.GeofenceCommand
                 (RoamRequest.Actions
                    (RoamRequest.WithOptions
                       (RoamRequest.Actions
                          (RoamRequest.WithOptions roam o1) a1) o2)
                    a2))
         = [RoamRequest.Key roam] ++ option_tokens o2 ++ ["FENCE"]
           ++ joined_tokens "DETECT" a2
           ++ format_tokens (RoamRequest.OutputFormat roam)
           ++ ["ROAM"; RoamRequest.Target roam; RoamRequest.Pattern roam;
               Itoa (RoamRequest.Meters roam)]
      /\ RoamRequest.Options
           (RoamRequest.WithOptions (RoamRequest.WithOptions roam o1) o2)
         = o2
      /\ RoamRequest.DetectActions
           (RoamRequest.Actions (RoamRequest.Actions roam a1) a2)
         = a2
      /\ RoamRequest.OutputFormat
           (RoamRequest.Format (RoamRequest.Format roam f1) f2)
         = f2
      /\ RoamRequest.GeofenceCommand
           (RoamRequest.Format
              (RoamRequest.Actions
                 (RoamRequest.WithOptions
                    (RoamRequest.Format
                       (RoamRequest.Actions
                          (RoamRequest.WithOptions roam o1) a1) f1)
                    o2)
                 a2)
              f2)
         = NewCommand "NEARBY"
             ([RoamRequest.Key roam] ++ option_tokens o2 ++ ["FENCE"]
              ++ joined_tokens "DETECT" a2 ++ format_tokens f2
              ++ ["ROAM"; RoamRequest.Target roam; RoamRequest.Pattern roam;
                  Itoa (RoamRequest.Meters roam)]))
  /\ (let '(q1, m1) := Actions query a1 m in
      let '(q2, m2) := Actions q1 a2 m1 in
      elems (actionArrays m2) (detectActions q2)
      = elems (actionArrays m) (detectActions query) ++ a1 ++ a2)
  /\ (let '(q1, m1) := Commands query n1 m in
      let '(q2, m2) := Commands q1 n2 m1 in
      elems (notifyArrays m2) (notifyCommands q2)
      = elems (notifyArrays m) (notifyCommands query) ++ n1 ++ n2)
  /\ (let '(q1, m1) := call c1 query m in
      let '(q2, m2) := call c2 q1 m1 in
      elems (commandArrays m2) (searchOpts q2)
      = elems (commandArrays m) (searchOpts query)
        ++ [fragment c1; fragment c2]).
Proof.
  intros Hwf. split; [|split; [|split; [|split]]].
  - repeat split; by rewrite Request_args.
  - repeat split; by rewrite RoamRequest_args.
  - pose proof (Actions_wf query a1 m Hwf) as Hwf1.
    pose proof (Actions_detectActions query a1 m Hwf) as He1.
    destruct (Actions query a1 m) as [q1 m1]. simpl in *.
    pose proof (Actions_detectActions q1 a2 m1 Hwf1) as He2.
    destruct (Actions q1 a2 m1) as [q2 m2]. simpl in *.
    by rewrite He2, He1, <- app_assoc.
  - pose proof (Commands_wf query n1 m Hwf) as Hwf1.
    pose proof (Commands_notifyCommands query n1 m Hwf) as He1.
    destruct (Commands query n1 m) as [q1 m1]. simpl in *.
    pose proof (Commands_notifyCommands q1 n2 m1 Hwf1) as He2.
    destruct (Commands q1 n2 m1) as [q2 m2]. simpl in *.
    by rewrite He2, He1, <- app_assoc.
  - pose proof (call_wf c1 query m Hwf) as Hwf1.
    pose proof (call_searchOpts c1 query m Hwf) as He1.
    destruct (call c1 query m) as [q1 m1]. simpl in *.
    pose proof (call_searchOpts c2 q1 m1 Hwf1) as He2.
    destruct (call c2 q1 m1) as [q2 m2]. simpl in *.
    by rewrite He2, He1, <- app_assoc.
Qed.

(** A chain of search-option calls accumulates one fragment per call,
    in call order. *)
Lemma chain_searchOpts (cs : list option_call) query m :
  builder_wf m query ->
  builder_wf (chain cs query m).2 (chain cs query m).1
  /\ elems (commandArrays (chain cs query m).2) (searchOpts (chain cs query m).1)
     = elems (commandArrays m) (searchOpts query) ++ map fragment cs.
Proof.
  revert query m. induction cs as [|c cs IH]; intros query m Hwf.
  - simpl. by rewrite app_nil_r.
  - unfold chain. cbn [fold_left].
    pose proof (call_wf c query m Hwf) as Hwf1.
    pose proof (call_searchOpts c query m Hwf) as He1.
    destruct (call c query m) as [q1 m1]. simpl in Hwf1, He1.
    destruct (IH q1 m1 Hwf1) as [Hwf2 He2]. split; [done|].
    unfold chain in He2. rewrite He2, He1. by rewrite <- app_assoc.
Qed.
End Setters.

Lemma fixed_setters_overwrite_builder_appends_witness :
  Args (Request.GeofenceCommand
          (Request.Actions
             (Request.WithOptions
                (Request.Actions
                   (Request.WithOptions sample_request
                      [NewCommand "LIMIT" ["5"]]) ["cross"])
                [NewCommand "NOFIELDS" []])
             ["inside"; "outside"]))
  = ["fleet"; "NOFIELDS"; "FENCE"; "DETECT"; "inside,outside";
     "BOUNDS"; "30"; "-110"; "40"; "-100"]
  /\ (let '(q1, m1) :=
        GeofenceQueryBuilder.Actions (Grow := GoSlice.nextslicecap)
          sample_query.1 ["cross"] sample_query.2 in
      let '(q2, m2) :=
        GeofenceQueryBuilder.Actions (Grow := GoSlice.nextslicecap)
          q1 ["inside"; "outside"] m1 in
      GoSlice.elems (actionArrays m2) (GeofenceQueryBuilder.detectActions q2)
      = ["enter"; "exit"; "enter"; "cross"; "inside"; "outside"])
  /\ Request.GeofenceCommand
       (Request.Format
          (Request.Actions
             (Request.WithOptions
                (Request.Format
                   (Request.Actions
                      (Request.WithOptions sample_request
                         [NewCommand "LIMIT" ["5"]]) ["cross"])
                   (NewCommand "POINTS" []))
                [NewCommand "NOFIELDS" []])
             ["inside"; "outside"])
          (NewCommand "HASHES" ["7"]))
     = NewCommand "WITHIN"
         ["fleet"; "NOFIELDS"; "FENCE"; "DETECT"; "inside,outside";
          "HASHES"; "7"; "BOUNDS"; "30"; "-110"; "40"; "-100"]
  /\ RoamRequest.OutputFormat
       (RoamRequest.Format
          (RoamRequest.Format sample_roam (NewCommand "POINTS" []))
          (NewCommand "HASHES" ["7"]))
     = NewCommand "HASHES" ["7"].
Proof.
  pose proof (fixed_setters_overwrite_builder_appends
                (Grow := GoSlice.nextslicecap) (Fmt := whole_floats)
                sample_request sample_roam
                [NewCommand "LIMIT" ["5"]] [NewCommand "NOFIELDS" []]
                ["cross"] ["inside"; "outside"]
                (NewCommand "POINTS" []) (NewCommand "HASHES" ["7"])
                sample_query.1 sample_query.2
                ["set"] ["del"] (CallLimit 5) (CallWherein "speed" [1; 2]%Z))
    as Hthm.
  destruct Hthm as ((_ & _ & _ & Hreq & _ & _ & _ & Hfmt)
                    & (_ & _ & _ & _ & _ & _ & Hroam & _) & Hacts & _).
  - vm_compute. repeat split; lia.
  - split; [exact Hreq|]. split; [exact Hacts|].
    split; [exact Hfmt | exact Hroam].
Defined.

(* ================================================================== *)
(** * Wherein *)
(* ================================================================== *)

Section WhereinFacts.
Import GoSlice GeofenceQueryBuilder.
Context {Grow : GrowPolicy} {float64 : Type} {Fmt : FloatString float64}.

(** The fragment [Wherein] appends holds the count and the values; the
    [field] argument does not reach it. *)
Lemma Wherein_searchOpts (query : GeofenceQueryBuilder.t) (m : Mem)
    (field : string) (values : list float64) :
  builder_wf m query ->
  elems (commandArrays (Wherein query field values m).2)
        (searchOpts (Wherein query field values m).1)
  = elems (commandArrays m) (searchOpts query)
    ++ [NewCommand "WHEREIN"
          (Itoa (Z.of_nat (length values)) :: map floatString values)].
Proof. intros Hwf. apply (call_searchOpts (CallWherein field values) _ _ Hwf). Qed.

Lemma Wherein_ignores_field (query : GeofenceQueryBuilder.t) (m : Mem)
    (field field' : string) (values : list float64) :
  Wherein query field values m = Wherein query field' values m.
Proof. reflexivity. Qed.

(** [Where], next to it, does emit the field. *)
Lemma Where_searchOpts (query : GeofenceQueryBuilder.t) (m : Mem)
    (field : string) (min max : float64) :
  builder_wf m query ->
  elems (commandArrays (Where query field min max m).2)
        (searchOpts (Where query field min max m).1)
  = elems (commandArrays m) (searchOpts query)
    ++ [NewCommand "WHERE" [field; floatString min; floatString max]].
Proof. intros Hwf. apply (call_searchOpts (CallWhere field min max) _ _ Hwf). Qed.

(** C1, as the code behaves.  On a fresh builder,
    [Wherein "field" v1 v2 v3] leaves the fragment
    [WHEREIN 3 v1 v2 v3]: the count and the values in order, without the
    field name the specification expects after [WHEREIN]. *)
Theorem Wherein_fragment_lacks_field (client : Client) (area : Command)
    (v1 v2 v3 : float64) :
  let r :=
    Wherein (newGeofenceQueryBuilder client "WITHIN" "fleet" area)
            "field" [v1; v2; v3] empty_mem in
  elems (commandArrays r.2) (searchOpts r.1)
  = [NewCommand "WHEREIN"
       ["3"; floatString v1; floatString v2; floatString v3]]
  /\ elems (commandArrays r.2) (searchOpts r.1)
     <> [NewCommand "WHEREIN"
           ["field"; "3"; floatString v1; floatString v2; floatString v3]]
  /\ toCmd r.1 r.2
     = NewCommand "WITHIN"
         (["fleet"; "WHEREIN"; "3";
           floatString v1; floatString v2; floatString v3; "FENCE"]
          ++ Name area :: Args area).
Proof.
  intros r.
  assert (elems (commandArrays r.2) (searchOpts r.1)
          = [NewCommand "WHEREIN"
               ["3"; floatString v1; floatString v2; floatString v3]]) as He
    by (vm_compute; reflexivity).
  split; [exact He|]. split.
  - rewrite He. intros Heq. discriminate Heq.
  - vm_compute. reflexivity.
Qed.
End WhereinFacts.

(* ================================================================== *)
(** * Branching a builder value *)
(* ================================================================== *)

Section Branching.
Import GoSlice GeofenceQueryBuilder.
Context {Grow : GrowPolicy} {float64 : Type} {Fmt : FloatString float64}.

(** X13.  Deriving two values from [b1] leaves [b1] reading its own
    options, and the value derived last reads its own fragment. *)
Lemma branch_keeps_origin_and_last (c2 c3 : option_call)
    (b1 : GeofenceQueryBuilder.t) (m1 : Mem) :
  builder_wf m1 b1 ->
  let '(b2, m2) := call c2 b1 m1 in
  let '(b3, m3) := call c3 b1 m2 in
  elems (commandArrays m3) (searchOpts b1)
  = elems (commandArrays m1) (searchOpts b1)
  /\ elems (commandArrays m3) (searchOpts b3)
     = elems (commandArrays m1) (searchOpts b1) ++ [fragment c3].
Proof.
  intros Hwf.
  destruct (call_frame c2 b1 m1 b1 Hwf Hwf) as (Hwf2 & He2 & _); [lia|].
  destruct (call c2 b1 m1) as [b2 m2]. simpl in Hwf2, He2.
  destruct (call_frame c3 b1 m2 b1 Hwf2 Hwf2) as (Hwf3 & He3 & _); [lia|].
  pose proof (call_searchOpts c3 b1 m2 Hwf2) as He3'.
  destruct (call c3 b1 m2) as [b3 m3]. simpl in Hwf3, He3, He3'.
  split; [by rewrite He3, He2 | by rewrite He3', He2].
Qed.

(** X14.  When [b1]'s option list fills its array, the first derived
    value keeps its own fragment. *)
Lemma branch_independent_when_full (c2 c3 : option_call)
    (b1 : GeofenceQueryBuilder.t) (m1 : Mem) :
  builder_wf m1 b1 ->
  len (searchOpts b1) = cap (searchOpts b1) ->
  let '(b2, m2) := call c2 b1 m1 in
  let '(b3, m3) := call c3 b1 m2 in
  elems (commandArrays m3) (searchOpts b2)
  = elems (commandArrays m1) (searchOpts b1) ++ [fragment c2].
Proof.
  intros Hwf Hfull.
  pose proof (call_wf c2 b1 m1 Hwf) as Hwf2.
  pose proof (call_searchOpts c2 b1 m1 Hwf) as He2.
  destruct (call_frame c2 b1 m1 b1 Hwf Hwf) as (Hwf1 & _ & _); [lia|].
  destruct (call c2 b1 m1) as [b2 m2]. simpl in Hwf2, He2, Hwf1.
  destruct (call_frame c3 b1 m2 b2 Hwf1 Hwf2) as (_ & He3 & _); [lia|].
  destruct (call c3 b1 m2) as [b3 m3]. simpl in He3.
  by rewrite He3, He2.
Qed.

(** X15.  When [b1]'s option list leaves room in its array, both
    derived values view the same cell, and the second call's fragment is
    what the first derived value reads from then on. *)
Lemma branch_shares_when_room (c2 c3 : option_call)
    (b1 : GeofenceQueryBuilder.t) (m1 : Mem) :
  builder_wf m1 b1 ->
  len (searchOpts b1) < cap (searchOpts b1) ->
  let '(b2, m2) := call c2 b1 m1 in
  let '(b3, m3) := call c3 b1 m2 in
  searchOpts b2 = searchOpts b3
  /\ elems (commandArrays m3) (searchOpts b2)
     = elems (commandArrays m1) (searchOpts b1) ++ [fragment c3].
Proof.
  intros Hwf Hroom.
  pose proof (call_in_place c2 b1 m1 Hroom) as Hs2.
  destruct (call_frame c2 b1 m1 b1 Hwf Hwf) as (Hwf1 & He1 & _); [lia|].
  destruct (call c2 b1 m1) as [b2 m2]. simpl in Hs2, Hwf1, He1.
  pose proof (call_in_place c3 b1 m2 Hroom) as Hs3.
  pose proof (call_searchOpts c3 b1 m2 Hwf1) as He3.
  destruct (call c3 b1 m2) as [b3 m3]. simpl in Hs3, He3.
  split; [by rewrite Hs2, Hs3|].
  by rewrite Hs2, <- Hs3, He3, He1.
Qed.
End Branching.

(** C8, as the code behaves.  Under the runtime's doubling rule a
    builder that went through three search-option calls holds three
    options in an array of four.  [b2 := b1.Limit(5)] and
    [b3 := b1.Limit(10)] then write the same fourth cell: [b2] assembles
    [LIMIT 5] until [b3] is derived and [LIMIT 10] afterwards, while [b1]
    and [b3] assemble what they should. *)
Theorem Limit_branches_share_cell (client : Client) (area : Command) :
  let b0 :=
    GeofenceQueryBuilder.newGeofenceQueryBuilder client "WITHIN" "fleet" area in
  let '(b1, m1) :=
    chain (Grow := GoSlice.nextslicecap) (Fmt := whole_floats)
          [CallAsc; CallAsc; CallAsc] b0 empty_mem in
  let '(b2, m2) :=
    GeofenceQueryBuilder.Limit (Grow := GoSlice.nextslicecap) b1 5 m1 in
  let '(b3, m3) :=
    GeofenceQueryBuilder.Limit (Grow := GoSlice.nextslicecap) b1 10 m2 in
  GeofenceQueryBuilder.toCmd b2 m2
  = NewCommand "WITHIN"
      (["fleet"; "ASC"; "ASC"; "ASC"; "LIMIT"; "5"; "FENCE"]
       ++ Name area :: Args area)
  /\ GeofenceQueryBuilder.toCmd b2 m3
     = NewCommand "WITHIN"
         (["fleet"; "ASC"; "ASC"; "ASC"; "LIMIT"; "10"; "FENCE"]
          ++ Name area :: Args area)
  /\ GeofenceQueryBuilder.toCmd b3 m3
     = NewCommand "WITHIN"
         (["fleet"; "ASC"; "ASC"; "ASC"; "LIMIT"; "10"; "FENCE"]
          ++ Name area :: Args area)
  /\ GeofenceQueryBuilder.toCmd b1 m3
     = NewCommand "WITHIN"
         (["fleet"; "ASC"; "ASC"; "ASC"; "FENCE"] ++ Name area :: Args area).
Proof. vm_compute. repeat split. Qed.

(* ================================================================== *)
(** * Decoding a stream *)
(* ================================================================== *)

Section Decoding.
Context {T : Type} {Dec : Unmarshal T}.

Lemma decoded_app (good : list string) (vs : list T) (rest : list string) :
  Forall2 decodes_to good vs -> decoded (good ++ rest) = vs ++ decoded rest.
Proof.
  induction 1 as [|raw v good vs Hd _ IH]; [done|].
  simpl. unfold decodes_to in Hd. by rewrite Hd, IH.
Qed.

Lemma decoded_all (events : list string) (vs : list T) :
  Forall2 decodes_to events vs -> decoded events = vs.
Proof.
  intros Hall. rewrite <- (app_nil_r events), (decoded_app _ _ _ Hall).
  apply app_nil_r.
Qed.

Lemma decoded_stops (good : list string) (vs : list T) (bad : string)
    (e : error) (rest : list string) :
  Forall2 decodes_to good vs -> json_Unmarshal (T := T) bad = inr e ->
  decoded (good ++ bad :: rest) = vs.
Proof.
  intros Hall Hbad. rewrite (decoded_app _ _ _ Hall). simpl.
  rewrite Hbad. apply app_nil_r.
Qed.

Lemma decode_error_app (good : list string) (vs : list T) (rest : list string) :
  Forall2 decodes_to good vs ->
  decode_error (T := T) (good ++ rest) = decode_error (T := T) rest.
Proof.
  induction 1 as [|raw v good vs Hd _ IH]; [done|].
  simpl. unfold decodes_to in Hd. by rewrite Hd.
Qed.

(** [decoded events] is the image of a prefix of [events]. *)
Lemma decoded_prefix (events : list string) :
  Forall2 decodes_to (take (length (decoded events)) events) (decoded events).
Proof.
  induction events as [|event events IH]; simpl; [constructor|].
  destruct (json_Unmarshal event) as [v|e] eqn:Hd; simpl; by constructor.
Qed.

(** ... and so is every prefix of it. *)
Lemma prefix_of_decoded (events : list string) (vs : list T) :
  vs `prefix_of` decoded events ->
  Forall2 decodes_to (take (length vs) events) vs.
Proof.
  intros [tail Htail]. pose proof (decoded_prefix events) as Hall.
  rewrite Htail in Hall.
  apply (Forall2_take _ _ _ (length vs)) in Hall.
  rewrite take_app_length in Hall. rewrite take_take in Hall.
  rewrite length_app in Hall.
  by replace (length vs `min` (length vs + length tail)) with (length vs)
    in Hall by lia.
Qed.
End Decoding.

(* ================================================================== *)
(** * The queue pipeline: invariant and progress *)
(* ================================================================== *)

Section PipelineFacts.
Import Fence.
Context {Response : Type} {DecResp : Unmarshal Response}.
Implicit Types (s : state (Response := Response)) (all : list Response).

Lemma run_app (sched1 sched2 : list actor) s :
  run (sched1 ++ sched2) s = run sched2 (run sched1 s).
Proof. unfold run. apply fold_left_app. Qed.

(** Establish: the state [Fence] starts from. *)
Lemma inv_started (events : list string) :
  inv (decoded events) (started events).
Proof.
  unfold inv, in_flight. simpl. repeat split; try done. unfold capacity. lia.
Qed.

(** Preserve: a move of the task. *)
Lemma inv_open all s :
  inv all s -> goroutine s <> Returned ->
  closed s = false /\ sawClose s = false.
Proof.
  intros (_ & Hclosed & Hsaw & _) Hg.
  assert (closed s = false) as Hopen.
  { destruct (closed s); [|done]. destruct Hg. by apply Hclosed. }
  split; [done|].
  destruct (sawClose s); [|done]. destruct (Hsaw eq_refl). congruence.
Qed.

Lemma inv_task_step all s : inv all s -> inv all (task_step s).
Proof.
  intros Hinv. pose proof Hinv as (Hall & Hclosed & Hsaw & Hcap).
  unfold task_step. destruct (goroutine s) as [|resp|] eqn:Hg.
  - destruct (inv_open all s Hinv) as [Hopen Hnot]; [congruence|].
    unfold in_flight in Hall. rewrite Hg in Hall.
    destruct (events s) as [|event rest] eqn:He.
    + unfold inv, in_flight; simpl. rewrite Hnot. by repeat split.
    + simpl in Hall. destruct (json_Unmarshal event) as [resp|err] eqn:Hd.
      * unfold inv, in_flight; simpl. rewrite Hopen, Hnot. by repeat split.
      * unfold inv, in_flight; simpl. rewrite Hnot. by repeat split.
  - destruct (inv_open all s Hinv) as [Hopen Hnot]; [congruence|].
    unfold in_flight in Hall. rewrite Hg in Hall.
    destruct (length (ch s) <? capacity)%nat eqn:Hroom.
    + apply Nat.ltb_lt in Hroom.
      unfold inv, in_flight; simpl. rewrite Hopen, Hnot.
      repeat split; try done.
      * by rewrite <- Hall, <- !app_assoc.
      * rewrite length_app. simpl. lia.
    + done.
  - done.
Qed.

(** Preserve: a move of the consumer. *)
Lemma inv_consumer_step all s : inv all s -> inv all (consumer_step s).
Proof.
  intros Hinv. pose proof Hinv as (Hall & Hclosed & Hsaw & Hcap).
  unfold consumer_step. destruct (ch s) as [|resp rest] eqn:Hch.
  - destruct (closed s) eqn:Hc; [|done].
    unfold inv, in_flight in *; simpl in *.
    repeat split; try done; try (unfold capacity; lia).
    intros _. by apply Hclosed.
  - assert (sawClose s = false) as Hnot.
    { destruct (sawClose s); [|done]. destruct (Hsaw eq_refl). congruence. }
    unfold inv, in_flight in *; simpl in *. rewrite Hnot.
    repeat split; try done; try lia; try apply Hclosed.
    by rewrite <- Hall, <- !app_assoc.
Qed.

Lemma inv_run all (schedule : list actor) s : inv all s -> inv all (run schedule s).
Proof.
  revert s. induction schedule as [|a schedule IH]; intros s Hinv; [done|].
  simpl. apply IH. destruct a; [by apply inv_task_step | by apply inv_consumer_step].
Qed.

(** Use: what has been received is a prefix of what the stream decodes
    to; it is all of it once the consumer has seen the closure, and
    together with the queue's content once the task has returned. *)
Lemma inv_received_prefix all s : inv all s -> received s `prefix_of` all.
Proof. intros (Hall & _). exists (ch s ++ in_flight s). by rewrite Hall. Qed.

Lemma inv_returned all s :
  inv all s -> goroutine s = Returned ->
  closed s = true /\ received s ++ ch s = all.
Proof.
  intros (Hall & Hclosed & _) Hg. split; [by apply Hclosed|].
  unfold in_flight in Hall. rewrite Hg in Hall. by rewrite app_nil_r in Hall.
Qed.

Lemma inv_sawClose all s :
  inv all s -> sawClose s = true ->
  received s = all /\ goroutine s = Returned /\ closed s = true.
Proof.
  intros Hinv Hs. pose proof Hinv as (Hall & Hclosed & Hsaw & _).
  destruct (Hsaw Hs) as [Hc Hch].
  assert (goroutine s = Returned) as Hg by by apply Hclosed.
  destruct (inv_returned all s Hinv Hg) as [_ Hrc].
  rewrite Hch, app_nil_r in Hrc. done.
Qed.

(** Progress: while the consumer keeps reading, as under [drain], the
    task runs to its end and the consumer gets to see the closure. *)
Lemma drain_reaches_close (events : list string) (lg : list string)
    (rcv : list Response) (sc : bool) :
  sawClose
    (run (drain (Response := Response) events)
         {| events := events; goroutine := Receiving; ch := [];
            closed := false; logged := lg; received := rcv;
            sawClose := sc |})
  = true.
Proof.
  revert lg rcv sc. induction events as [|event rest IH]; intros lg rcv sc.
  - reflexivity.
  - simpl drain. destruct (json_Unmarshal event) as [resp|err] eqn:Hd.
    + unfold run. cbn [fold_left step].
      unfold task_step at 2. simpl. rewrite Hd.
      unfold task_step. simpl. unfold consumer_step. simpl. apply IH.
    + unfold run. cbn [fold_left step].
      unfold task_step. simpl. rewrite Hd. reflexivity.
Qed.

Lemma drain_started (events : list string) :
  sawClose (run (drain (Response := Response) events) (started events)) = true.
Proof. apply drain_reaches_close. Qed.

(** Once the task has returned, a consumer that empties the queue sees
    the closure. *)
Lemma returned_drains s :
  goroutine s = Returned -> closed s = true ->
  sawClose (run (replicate (S (length (ch s))) Consumer) s) = true.
Proof.
  remember (length (ch s)) as n eqn:Hn. revert s Hn.
  induction n as [|n IH]; intros s Hn Hg Hc.
  - destruct (ch s) as [|resp rest] eqn:Hch; [|done].
    simpl. unfold consumer_step. by rewrite Hch, Hc.
  - destruct (ch s) as [|resp rest] eqn:Hch; [done|].
    change (replicate (S (S n)) Consumer)
      with (Consumer :: replicate (S n) Consumer).
    unfold run. cbn [fold_left step].
    assert (consumer_step s
            = {| events := events s; goroutine := goroutine s; ch := rest;
                 closed := closed s; logged := logged s;
                 received := received s ++ [resp];
                 sawClose := sawClose s |}) as Hstep
      by (unfold consumer_step; by rewrite Hch).
    rewrite Hstep. apply IH; simpl in *; [lia | done | done].
Qed.

(** From every reachable state some continuation, in which both the
    task and the consumer keep moving, lets the consumer see the
    closure: the pipeline does not get stuck. *)
Lemma closure_reachable all s :
  inv all s -> exists more, sawClose (run more s) = true.
Proof.
  remember (moves_left s) as n eqn:Hn. revert s Hn.
  induction n as [n IH] using lt_wf_ind. intros s Hn Hinv.
  pose proof Hinv as (_ & Hclosed & _ & _).
  destruct (goroutine s) as [|resp|] eqn:Hg.
  - (* receiving: let the task move *)
    destruct (IH (moves_left (task_step s))) with (s := task_step s)
      as [more Hmore]; [|done|by apply inv_task_step|].
    + subst n. unfold moves_left, task_step. rewrite Hg.
      destruct (events s) as [|event rest]; simpl; [lia|].
      destruct (json_Unmarshal event); simpl; lia.
    + exists (Task :: more). exact Hmore.
  - (* sending: make room if need be, then let the task move *)
    set (s1 := consumer_step s).
    assert (inv all s1) as Hinv1 by by apply inv_consumer_step.
    assert (goroutine s1 = Sending resp /\ events s1 = events s
            /\ length (ch s1) < capacity) as (Hg1 & He1 & Hroom).
    { destruct (inv_open all s Hinv) as [Hopen _]; [congruence|].
      unfold s1, consumer_step.
      destruct Hinv as (_ & _ & _ & Hcap).
      destruct (ch s) as [|r rest] eqn:Hch; simpl.
      - rewrite Hopen. rewrite Hch. unfold capacity. simpl. auto with lia.
      - simpl in Hcap. repeat split; try done; lia. }
    destruct (IH (moves_left (task_step s1))) with (s := task_step s1)
      as [more Hmore]; [|done|by apply inv_task_step|].
    + subst n. unfold moves_left at 2. rewrite Hg.
      unfold moves_left, task_step. rewrite Hg1.
      apply Nat.ltb_lt in Hroom. rewrite Hroom. simpl. rewrite He1. lia.
    + exists (Consumer :: Task :: more). exact Hmore.
  - exists (replicate (S (length (ch s))) Consumer).
    apply returned_drains; [done | by apply Hclosed].
Qed.

(** The move that meets a payload which does not decode: the task
    returns and closes the queue; the queue's content and what the
    consumer holds are as before. *)
Lemma task_step_bad s (bad : string) (e : error) (rest : list string) :
  goroutine s = Receiving -> events s = bad :: rest ->
  json_Unmarshal (T := Response) bad = inr e ->
  goroutine (task_step s) = Returned
  /\ closed (task_step s) = true
  /\ ch (task_step s) = ch s
  /\ received (task_step s) = received s
  /\ logged (task_step s) = logged s ++ ["bad event: " +:+ e].
Proof.
  intros Hg He Hbad. unfold task_step. rewrite Hg, He, Hbad. done.
Qed.
End PipelineFacts.

(* ================================================================== *)
(** * The callback loop *)
(* ================================================================== *)

Section DoFacts.
Import GeofenceQueryBuilder.
Context {GeofenceEvent : Type} {DecEvent : Unmarshal GeofenceEvent} {Verb : CommandVerb}.
Context {World : Type}.
Implicit Types (handler : GeofenceEvent -> World -> World) (w : World).

(** The loop hands the handler the events of the longest decodable
    prefix, in order, and reports the error that ended that prefix. *)
Lemma range_events_closed handler (events : list string) w :
  range_events handler events w
  = (option_map (fun err => "json unmarshal geofence response: " +:+ err)
                (decode_error (T := GeofenceEvent) events),
     fold_left (fun w resp => handler resp w) (decoded events) w).
Proof.
  revert w. induction events as [|event events IH]; intros w; [done|].
  simpl. destruct (json_Unmarshal event) as [resp|err]; [apply IH | done].
Qed.

Lemma Do_started (query : GeofenceQueryBuilder.t) (c : Context) handler
    (m : Mem) w (events : list string) :
  ExecuteStream (client query) c (Name (toCmd query m)) (Args (toCmd query m))
  = (events, None) ->
  Do query c handler m w = range_events handler events w.
Proof. intros Hstart. unfold Do. cbv zeta. by rewrite Hstart. Qed.
End DoFacts.

(* ================================================================== *)
(** * Delivery: errors and order *)
(* ================================================================== *)

Section Delivery.
Import Fence GeofenceQueryBuilder.
Context {T : Type} {Req : GeofenceRequestable T}.
Context {Response : Type} {DecResp : Unmarshal Response}.
Context {GeofenceEvent : Type} {DecEvent : Unmarshal GeofenceEvent} {Verb : CommandVerb}.
Context {World : Type}.

(** C2.  When the stream holds a payload that does not decode, [Fence]
    itself returns no error; whatever the interleaving, the consumer
    receives only responses decoded from the payloads before the bad
    one, in order, and nothing else travels through the queue; once the
    task has returned the queue is closed, and a consumer that sees the
    closure has received exactly those responses.  A consumer that keeps
    reading does get to see the closure.  In particular, when the bad
    payload comes first the consumer receives nothing.  Every
    interleaving can be continued to one in which the consumer sees the
    closure. *)
Theorem Fence_decode_failure_closes_queue
    (client : Client) (c : Context) (req : T)
    (good : list string) (resps : list Response)
    (bad : string) (e : error) (rest : list string)
    (schedule : list actor) :
  ExecuteStream client c (Name (GeofenceCommand req))
                (Args (GeofenceCommand req))
  = (good ++ bad :: rest, None) ->
  Forall2 decodes_to good resps ->
  json_Unmarshal (T := Response) bad = inr e ->
  let s0 := started (Response := Response) (good ++ bad :: rest) in
  Fence client c req = (Some s0, None)
  /\ received (run schedule s0) `prefix_of` resps
  /\ (goroutine (run schedule s0) = Returned ->
      closed (run schedule s0) = true
      /\ received (run schedule s0) ++ ch (run schedule s0) = resps)
  /\ (sawClose (run schedule s0) = true -> received (run schedule s0) = resps)
  /\ (good = [] -> received (run schedule s0) = [])
  /\ (exists more, sawClose (run (schedule ++ more) s0) = true)
  /\ sawClose (run (drain (Response := Response) (good ++ bad :: rest)) s0)
     = true
  /\ received (run (drain (Response := Response) (good ++ bad :: rest)) s0)
     = resps.
Proof.
  intros Hstart Hgood Hbad s0.
  pose proof (decoded_stops good resps bad e rest Hgood Hbad) as Hdec.
  assert (forall sched, inv resps (run sched s0)) as Hinv.
  { intros sched. apply inv_run. rewrite <- Hdec. apply inv_started. }
  pose proof (drain_started (Response := Response) (good ++ bad :: rest))
    as Hdrain.
  split; [|split; [|split; [|split; [|split; [|split; [|split]]]]]].
  - unfold Fence. cbv zeta. by rewrite Hstart.
  - apply (inv_received_prefix _ _ (Hinv schedule)).
  - apply (inv_returned _ _ (Hinv schedule)).
  - intros Hsaw. by destruct (inv_sawClose _ _ (Hinv schedule) Hsaw).
  - intros Hnil. rewrite Hnil in Hgood. apply Forall2_nil_inv_l in Hgood.
    pose proof (inv_received_prefix _ _ (Hinv schedule)) as Hpre.
    rewrite Hgood in Hpre. by apply prefix_nil_inv in Hpre.
  - destruct (closure_reachable _ _ (Hinv schedule)) as [more Hmore].
    exists more. by rewrite run_app.
  - exact Hdrain.
  - by destruct (inv_sawClose _ _ (Hinv _) Hdrain).
Qed.

(** C3.  When a payload does not decode, [Do] returns the wrapped
    decoding error; the handler has run on the events decoded before
    that payload, in order, and on nothing after.  When every payload
    decodes, [Do] returns no error and the handler has run on all. *)
Theorem Do_decode_failure_returns_error
    (query query' : GeofenceQueryBuilder.t) (c : Context)
    (handler : GeofenceEvent -> World -> World) (m : Mem) (w : World)
    (good : list string) (resps : list GeofenceEvent)
    (bad : string) (e : error) (rest : list string)
    (events' : list string) (resps' : list GeofenceEvent) :
  ExecuteStream (client query) c (Name (toCmd query m)) (Args (toCmd query m))
  = (good ++ bad :: rest, None) ->
  Forall2 decodes_to good resps ->
  json_Unmarshal (T := GeofenceEvent) bad = inr e ->
  ExecuteStream (client query') c (Name (toCmd query' m))
                (Args (toCmd query' m))
  = (events', None) ->
  Forall2 decodes_to events' resps' ->
  Do query c handler m w
  = (Some ("json unmarshal geofence response: " +:+ e),
     fold_left (fun w resp => handler resp w) resps w)
  /\ Do query' c handler m w
     = (None, fold_left (fun w resp => handler resp w) resps' w).
Proof.
  intros Hstart Hgood Hbad Hstart' Hall. split.
  - rewrite (Do_started _ _ _ _ _ _ Hstart), range_events_closed.
    rewrite (decoded_stops good resps bad e rest Hgood Hbad).
    rewrite (decode_error_app good resps _ Hgood). simpl. by rewrite Hbad.
  - rewrite (Do_started _ _ _ _ _ _ Hstart'), range_events_closed.
    rewrite (decoded_all events' resps' Hall).
    rewrite <- (app_nil_r events'), (decode_error_app events' resps' [] Hall).
    done.
Qed.

(** C7.  When [ExecuteStream] reports a start error, [Fence] returns
    that error and no queue, and [Do] returns the error wrapped with the
    command, the handler not having run. *)
Theorem start_error_is_returned
    (client : Client) (c : Context) (req : T)
    (query : GeofenceQueryBuilder.t)
    (handler : GeofenceEvent -> World -> World) (m : Mem) (w : World)
    (events events' : list string) (e e' : error) :
  ExecuteStream client c (Name (GeofenceCommand req))
                (Args (GeofenceCommand req))
  = (events, Some e) ->
  ExecuteStream (GeofenceQueryBuilder.client query) c
                (Name (toCmd query m)) (Args (toCmd query m))
  = (events', Some e') ->
  Fence (Response := Response) client c req = (None, Some e)
  /\ Do query c handler m w
     = (Some ("command: " +:+ fmt_Command (toCmd query m) +:+ ": " +:+ e'), w).
Proof.
  intros Hstart Hstart'. split.
  - unfold Fence. cbv zeta. by rewrite Hstart.
  - unfold Do. cbv zeta. by rewrite Hstart'.
Qed.

(** C9.  In both modes what reaches the consumer is the decoded image
    of a prefix of the stream, in stream order: at every point of every
    interleaving for the queue, and as the sequence of handler calls for
    the callback.  Nothing decoded is skipped: the callback runs on the
    whole of the longest decodable prefix; the queue's consumer has
    received all of it when it sees the closure, and every interleaving
    can be continued until it has. *)
Theorem events_delivered_in_stream_order
    (client : Client) (c : Context) (req : T)
    (query : GeofenceQueryBuilder.t)
    (handler : GeofenceEvent -> World -> World) (m : Mem) (w : World)
    (events events' : list string) (schedule : list actor) :
  ExecuteStream client c (Name (GeofenceCommand req))
                (Args (GeofenceCommand req))
  = (events, None) ->
  ExecuteStream (GeofenceQueryBuilder.client query) c
                (Name (toCmd query m)) (Args (toCmd query m))
  = (events', None) ->
  let s0 := started (Response := Response) events in
  (Fence client c req = (Some s0, None)
   /\ (exists n,
         Forall2 decodes_to (take n events) (received (run schedule s0)))
   /\ (sawClose (run schedule s0) = true ->
       received (run schedule s0) = decoded events)
   /\ (exists more, received (run (schedule ++ more) s0) = decoded events))
  /\ ((Do query c handler m w).2
      = fold_left (fun w resp => handler resp w)
                  (decoded (T := GeofenceEvent) events') w
      /\ (Do query c (fun resp trace => trace ++ [resp]) m []).2
         = decoded (T := GeofenceEvent) events'
      /\ exists n,
           Forall2 decodes_to (take n events')
                   (Do query c (fun resp trace => trace ++ [resp]) m []).2).
Proof.
  intros Hstart Hstart' s0.
  assert (inv (decoded events) (run schedule s0)) as Hinv
    by (apply inv_run, inv_started).
  assert (forall (l : list GeofenceEvent) (acc : list GeofenceEvent),
            fold_left (fun trace resp => trace ++ [resp]) l acc = acc ++ l)
    as Htrace.
  { induction l as [|x l IH]; intros acc; simpl.
    - by rewrite app_nil_r.
    - by rewrite IH, <- app_assoc. }
  split; [split; [|split; [|split]] | split; [|split]].
  - unfold Fence. cbv zeta. by rewrite Hstart.
  - exists (length (received (run schedule s0))).
    apply prefix_of_decoded. apply (inv_received_prefix _ _ Hinv).
  - intros Hsaw. by destruct (inv_sawClose _ _ Hinv Hsaw).
  - destruct (closure_reachable _ _ Hinv) as [more Hmore].
    exists more. rewrite run_app.
    assert (inv (decoded events) (run more (run schedule s0))) as Hinv'
      by by apply inv_run.
    by destruct (inv_sawClose _ _ Hinv' Hmore).
  - by rewrite (Do_started _ _ _ _ _ _ Hstart'), range_events_closed.
  - rewrite (Do_started _ _ _ _ _ _ Hstart'), range_events_closed. simpl.
    apply Htrace.
  - rewrite (Do_started _ _ _ _ _ _ Hstart'), range_events_closed. simpl.
    rewrite Htrace. simpl. eexists. apply decoded_prefix.
Qed.
End Delivery.

(* ================================================================== *)
(** * More on command assembly *)
(* ================================================================== *)

Section MoreAssembly.
Import GoSlice GeofenceQueryBuilder.
Context {Grow : GrowPolicy} {float64 : Type} {Fmt : FloatString float64}.
Implicit Types (m : Mem) (query : GeofenceQueryBuilder.t).

(** X1.  The builder's command: the key, the search options in the
    order accumulated, ["FENCE"], ["DETECT"] and the joined actions,
    ["COMMANDS"] and the joined notify commands, the output format, then
    the roam tail under ["NEARBY"] or the area under the stored name. *)
Theorem builder_command_layout m query :
  builder_wf m query ->
  toCmd query m
  = assemble (shape_of query).1 (key query)
      (elems (commandArrays m) (searchOpts query))
      (elems (actionArrays m) (detectActions query))
      (elems (notifyArrays m) (notifyCommands query))
      (outputFormat query) (shape_of query).2.
Proof.
  intros Hwf. rewrite (toCmd_closed m query Hwf). cbv zeta.
  unfold assemble, shape_of.
  destruct (isRoamQuery query); simpl;
    rewrite <- ?app_assoc; simpl; by rewrite <- ?app_assoc.
Qed.

(** X2.  A roam request's command in full: as a fixed-area request's,
    with the four roam tokens for a tail, under the name ["NEARBY"], and
    never a ["COMMANDS"] part. *)
Theorem RoamRequest_command_layout (roam : RoamRequest.t) :
  RoamRequest.GeofenceCommand roam
  = assemble "NEARBY" (RoamRequest.Key roam) (RoamRequest.Options roam)
      (RoamRequest.DetectActions roam) [] (RoamRequest.OutputFormat roam)
      ["ROAM"; RoamRequest.Target roam; RoamRequest.Pattern roam;
       Itoa (RoamRequest.Meters roam)].
Proof. rewrite RoamRequest_args. reflexivity. Qed.

(** X3.  What the constructors stand for before any setter is called:
    the key, ["FENCE"] and the shape's tail, whatever the store holds. *)
Theorem constructors_assemble_bare_commands (client : Client) m
    (cmd key target pattern : string) (area : SearchArea)
    (lat lon radius : float64) (meters : Z) :
  Request.GeofenceCommand (GeofenceIntersects key area)
  = NewCommand "INTERSECTS" ([key; "FENCE"; Name area] ++ Args area)
  /\ Request.GeofenceCommand (GeofenceNearby key lat lon radius)
     = NewCommand "NEARBY"
         [key; "FENCE"; "POINT";
          floatString lat; floatString lon; floatString radius]
  /\ RoamRequest.GeofenceCommand (GeofenceRoam key target pattern meters)
     = NewCommand "NEARBY" [key; "FENCE"; "ROAM"; target; pattern; Itoa meters]
  /\ toCmd (newGeofenceQueryBuilder client cmd key area) m
     = NewCommand cmd ([key; "FENCE"; Name area] ++ Args area)
  /\ toCmd (newGeofenceRoamQueryBuilder client key target pattern meters) m
     = NewCommand "NEARBY" [key; "FENCE"; "ROAM"; target; pattern; Itoa meters].
Proof. repeat split. Qed.

(** X4.  A builder without notify commands assembles the command of the
    fixed-shape request that carries the same key, options, actions and
    format: the hand-written joining loop and [strings.Join] agree. *)
Theorem builder_agrees_with_requests m query :
  builder_wf m query ->
  elems (notifyArrays m) (notifyCommands query) = [] ->
  toCmd query m
  = if isRoamQuery query
    then RoamRequest.GeofenceCommand (as_roam_request m query)
    else Request.GeofenceCommand (as_request m query).
Proof.
  intros Hwf Hntf. rewrite (toCmd_closed m query Hwf). cbv zeta.
  rewrite Hntf. destruct (isRoamQuery query).
  - rewrite RoamRequest_args. simpl.
    rewrite <- ?app_assoc; simpl; by rewrite <- ?app_assoc.
  - rewrite Request_args. simpl.
    rewrite <- ?app_assoc; simpl; by rewrite <- ?app_assoc.
Qed.

(** What one call does to a well-formed builder. *)
Lemma invoke_spec (c : builder_call) m query :
  builder_wf m query ->
  builder_wf (invoke c query m).2 (invoke c query m).1
  /\ elems (commandArrays (invoke c query m).2)
           (searchOpts (invoke c query m).1)
     = elems (commandArrays m) (searchOpts query) ++ added_options [c]
  /\ elems (actionArrays (invoke c query m).2)
           (detectActions (invoke c query m).1)
     = elems (actionArrays m) (detectActions query) ++ added_actions [c]
  /\ elems (notifyArrays (invoke c query m).2)
           (notifyCommands (invoke c query m).1)
     = elems (notifyArrays m) (notifyCommands query) ++ added_commands [c]
  /\ outputFormat (invoke c query m).1 = final_format (outputFormat query) [c]
  /\ shape_of (invoke c query m).1 = shape_of query
  /\ key (invoke c query m).1 = key query.
Proof.
  intros Hwf. pose proof Hwf as (Hs & Ha & Hn).
  destruct c as [c|acts|ntfs|fmt]; simpl invoke.
  - split; [by apply call_wf|]. split; [by apply call_searchOpts|].
    rewrite call_unfold. simpl. by rewrite !app_nil_r.
  - split; [by apply Actions_wf|]. rewrite Actions_unfold. simpl.
    rewrite !app_nil_r. repeat split. by apply append_elems.
  - split; [by apply Commands_wf|]. rewrite Commands_unfold. simpl.
    rewrite !app_nil_r. repeat split. by apply append_elems.
  - simpl. by rewrite !app_nil_r.
Qed.

Lemma flat_map_snoc {A B : Type} (f : A -> list B) (l : list A) (x : A) :
  flat_map f (l ++ [x]) = flat_map f l ++ f x.
Proof. rewrite flat_map_app. simpl. by rewrite app_nil_r. Qed.

Lemma fluent_snoc (cs : list builder_call) (c : builder_call) m query :
  fluent (cs ++ [c]) query m
  = invoke c (fluent cs query m).1 (fluent cs query m).2.
Proof.
  unfold fluent. rewrite fold_left_app. simpl.
  by destruct (fold_left _ cs (query, m)).
Qed.

(** What a chain of calls does to a well-formed builder. *)
Lemma fluent_spec (cs : list builder_call) m query :
  builder_wf m query ->
  builder_wf (fluent cs query m).2 (fluent cs query m).1
  /\ elems (commandArrays (fluent cs query m).2)
           (searchOpts (fluent cs query m).1)
     = elems (commandArrays m) (searchOpts query) ++ added_options cs
  /\ elems (actionArrays (fluent cs query m).2)
           (detectActions (fluent cs query m).1)
     = elems (actionArrays m) (detectActions query) ++ added_actions cs
  /\ elems (notifyArrays (fluent cs query m).2)
           (notifyCommands (fluent cs query m).1)
     = elems (notifyArrays m) (notifyCommands query) ++ added_commands cs
  /\ outputFormat (fluent cs query m).1
     = final_format (outputFormat query) cs
  /\ shape_of (fluent cs query m).1 = shape_of query
  /\ key (fluent cs query m).1 = key query.
Proof.
  intros Hwf. induction cs as [|c cs IH] using rev_ind.
  - simpl. by rewrite !app_nil_r.
  - destruct IH as (Hwf' & Ho & Ha & Hn & Hf & Hsh & Hk).
    rewrite fluent_snoc.
    destruct (invoke_spec c _ _ Hwf') as (Hwf2 & Ho2 & Ha2 & Hn2 & Hf2 & Hsh2 & Hk2).
    split; [done|].
    unfold added_options, added_actions, added_commands, final_format in *.
    rewrite !flat_map_snoc, fold_left_app.
    rewrite Ho2, Ha2, Hn2, Hf2, Hsh2, Hk2, Ho, Ha, Hn, Hf, Hsh, Hk.
    simpl. rewrite !app_nil_r, <- !app_assoc. done.
Qed.

(** X5.  A chain of builder calls assembles the command whose options,
    detect actions and notify commands are those the builder had,
    followed by what each call added, in call order, and whose format is
    that of the last [Format] call; key, name and tail are untouched. *)
Theorem fluent_chain_command (cs : list builder_call) m query :
  builder_wf m query ->
  toCmd (fluent cs query m).1 (fluent cs query m).2
  = assemble (shape_of query).1 (key query)
      (elems (commandArrays m) (searchOpts query) ++ added_options cs)
      (elems (actionArrays m) (detectActions query) ++ added_actions cs)
      (elems (notifyArrays m) (notifyCommands query) ++ added_commands cs)
      (final_format (outputFormat query) cs) (shape_of query).2.
Proof.
  intros Hwf.
  destruct (fluent_spec cs m query Hwf) as (Hwf' & Ho & Ha & Hn & Hf & Hsh & Hk).
  rewrite (toCmd_closed _ _ Hwf'). cbv zeta.
  rewrite Ho, Ha, Hn, Hf. unfold assemble. rewrite <- Hsh, <- Hk.
  unfold shape_of.
  destruct (isRoamQuery (fluent cs query m).1); simpl;
    rewrite <- ?app_assoc; simpl; by rewrite <- ?app_assoc.
Qed.
End MoreAssembly.

(* ================================================================== *)
(** * Values along a chain, and calls with nothing to add *)
(* ================================================================== *)

Section Lineage.
Import GoSlice GeofenceQueryBuilder.
Context {Grow : GrowPolicy} {float64 : Type} {Fmt : FloatString float64}.
Implicit Types (m : Mem) (query : GeofenceQueryBuilder.t).

Lemma append_not_past {A : Type} {ZeroA : Zero A} (st : list (list A))
    (s s0 : Slice) (xs : list A) :
  wf st s0 -> not_past s0 s -> not_past s0 (append st s xs).1.
Proof.
  intros [Hl0 Hc0] Hpast. unfold append, not_past in *.
  destruct (decide (len s + length xs <= cap s)) as [Hfit|Hgrow]; simpl.
  - intros Hp. specialize (Hpast Hp). lia.
  - intros Hp. rewrite Hp, array_at_out in Hc0 by lia. simpl in Hc0. lia.
Qed.

Lemma append_frame_past {A : Type} {ZeroA : Zero A} (st : list (list A))
    (s s0 : Slice) (xs : list A) :
  wf st s -> wf st s0 -> not_past s0 s ->
  elems (append st s xs).2 s0 = elems st s0.
Proof. intros Hwf Hwf0 Hpast. apply append_frame; auto. Qed.

(** A call on [query] leaves every value [query] descends from as it
    was, and its result descends from that value too. *)
Lemma invoke_ancestor (c : builder_call) m query query0 :
  builder_wf m query0 -> builder_wf m query -> ancestor query0 query ->
  builder_wf (invoke c query m).2 query0
  /\ ancestor query0 (invoke c query m).1
  /\ elems (commandArrays (invoke c query m).2) (searchOpts query0)
     = elems (commandArrays m) (searchOpts query0)
  /\ elems (actionArrays (invoke c query m).2) (detectActions query0)
     = elems (actionArrays m) (detectActions query0)
  /\ elems (notifyArrays (invoke c query m).2) (notifyCommands query0)
     = elems (notifyArrays m) (notifyCommands query0).
Proof.
  intros (Hs0 & Ha0 & Hn0) (Hs & Ha & Hn) (Ps & Pa & Pn).
  destruct c as [c|acts|ntfs|fmt]; simpl invoke.
  - rewrite call_unfold. simpl.
    split; [split; [by apply append_frame_wf | done]|].
    split; [split; [by apply append_not_past | done]|].
    split; [by apply append_frame_past | done].
  - rewrite Actions_unfold. simpl.
    split; [split; [done | split; [by apply append_frame_wf | done]]|].
    split; [split; [done | split; [by apply append_not_past | done]]|].
    split; [done | split; [by apply append_frame_past | done]].
  - rewrite Commands_unfold. simpl.
    split; [split; [done | split; [done | by apply append_frame_wf]]|].
    split; [split; [done | split; [done | by apply append_not_past]]|].
    split; [done | split; [done | by apply append_frame_past]].
  - simpl. done.
Qed.

Lemma fluent_cons (c : builder_call) (cs : list builder_call) m query :
  fluent (c :: cs) query m
  = fluent cs (invoke c query m).1 (invoke c query m).2.
Proof. unfold fluent. simpl. by destruct (invoke c query m). Qed.

Lemma fluent_ancestor (cs : list builder_call) m query query0 :
  builder_wf m query0 -> builder_wf m query -> ancestor query0 query ->
  builder_wf (fluent cs query m).2 query0
  /\ ancestor query0 (fluent cs query m).1
  /\ elems (commandArrays (fluent cs query m).2) (searchOpts query0)
     = elems (commandArrays m) (searchOpts query0)
  /\ elems (actionArrays (fluent cs query m).2) (detectActions query0)
     = elems (actionArrays m) (detectActions query0)
  /\ elems (notifyArrays (fluent cs query m).2) (notifyCommands query0)
     = elems (notifyArrays m) (notifyCommands query0).
Proof.
  revert m query. induction cs as [|c cs IH]; intros m query Hwf0 Hwf Hanc.
  - done.
  - rewrite fluent_cons.
    destruct (invoke_ancestor c m query query0 Hwf0 Hwf Hanc)
      as (Hwf0' & Hanc' & Ho & Ha & Hn).
    destruct (invoke_spec c m query Hwf) as (Hwf' & _).
    destruct (IH _ _ Hwf0' Hwf' Hanc') as (Hwf0'' & Hanc'' & Ho' & Ha' & Hn').
    split; [done|]. split; [done|].
    split; [by rewrite Ho'|]. split; [by rewrite Ha' | by rewrite Hn'].
Qed.

Lemma ancestor_refl query : ancestor query query.
Proof. unfold ancestor, not_past. repeat split; lia. Qed.

Lemma toCmd_same_elems m m' query :
  builder_wf m query -> builder_wf m' query ->
  elems (commandArrays m') (searchOpts query)
  = elems (commandArrays m) (searchOpts query) ->
  elems (actionArrays m') (detectActions query)
  = elems (actionArrays m) (detectActions query) ->
  elems (notifyArrays m') (notifyCommands query)
  = elems (notifyArrays m) (notifyCommands query) ->
  toCmd query m' = toCmd query m.
Proof.
  intros Hwf Hwf' Ho Ha Hn.
  rewrite (toCmd_closed _ _ Hwf), (toCmd_closed _ _ Hwf'). cbv zeta.
  by rewrite Ho, Ha, Hn.
Qed.

(** X6.  Along a chain of calls every value keeps assembling the
    command it assembled when it was returned: calls made later, on the
    values derived from it, do not reach it. *)
Theorem earlier_values_keep_their_command
    (cs1 cs2 : list builder_call) m query :
  builder_wf m query ->
  let '(q1, m1) := fluent cs1 query m in
  let '(q2, m2) := fluent cs2 q1 m1 in
  toCmd query m2 = toCmd query m /\ toCmd q1 m2 = toCmd q1 m1.
Proof.
  intros Hwf.
  destruct (fluent_ancestor cs1 m query query Hwf Hwf (ancestor_refl query))
    as (Hwf0 & Hanc & Ho & Ha & Hn).
  destruct (fluent_spec cs1 m query Hwf) as (Hwf1 & _).
  destruct (fluent cs1 query m) as [q1 m1]. simpl in *.
  destruct (fluent_ancestor cs2 m1 q1 query Hwf0 Hwf1 Hanc)
    as (Hwf0' & _ & Ho' & Ha' & Hn').
  destruct (fluent_ancestor cs2 m1 q1 q1 Hwf1 Hwf1 (ancestor_refl q1))
    as (Hwf1' & _ & Ho1 & Ha1 & Hn1).
  destruct (fluent cs2 q1 m1) as [q2 m2]. simpl in *.
  split.
  - apply toCmd_same_elems; try done; congruence.
  - by apply toCmd_same_elems.
Qed.

Lemma append_nothing {A : Type} {ZeroA : Zero A} (st : list (list A))
    (s : Slice) :
  wf st s -> append st s [] = (s, st).
Proof.
  intros [Hl Hc]. unfold append. simpl.
  rewrite decide_True by lia. f_equal.
  - destruct s as [p l c]. simpl. f_equal. lia.
  - unfold array_at. destruct (st !! ptr s) as [arr|] eqn:Harr; simpl.
    + by apply list_insert_id.
    + apply list_insert_ge. by apply lookup_ge_None.
Qed.

(** X7.  Calls with no arguments.  On [Request] and on [RoamRequest],
    [Actions()] and [WithOptions()] clear what was stored, so the
    command loses its ["DETECT"] part or its options.  On the builder
    [Actions()] and [Commands()] change nothing. *)
Theorem calls_without_arguments (req : Request.t) (roam : RoamRequest.t)
    m query :
  builder_wf m query ->
  Request.GeofenceCommand (Request.Actions req [])
  = assemble (Request.Cmd req) (Request.Key req) (Request.Options req)
      [] [] (Request.OutputFormat req)
      (Name (Request.Area req) :: Args (Request.Area req))
  /\ Request.GeofenceCommand (Request.WithOptions req [])
     = assemble (Request.Cmd req) (Request.Key req) []
         (Request.DetectActions req) [] (Request.OutputFormat req)
         (Name (Request.Area req) :: Args (Request.Area req))
  /\ RoamRequest.GeofenceCommand (RoamRequest.Actions roam [])
     = assemble "NEARBY" (RoamRequest.Key roam) (RoamRequest.Options roam)
         [] [] (RoamRequest.OutputFormat roam)
         ["ROAM"; RoamRequest.Target roam; RoamRequest.Pattern roam;
          Itoa (RoamRequest.Meters roam)]
  /\ RoamRequest.GeofenceCommand (RoamRequest.WithOptions roam [])
     = assemble "NEARBY" (RoamRequest.Key roam) []
         (RoamRequest.DetectActions roam) [] (RoamRequest.OutputFormat roam)
         ["ROAM"; RoamRequest.Target roam; RoamRequest.Pattern roam;
          Itoa (RoamRequest.Meters roam)]
  /\ Actions query [] m = (query, m)
  /\ Commands query [] m = (query, m).
Proof.
  intros (Hs & Ha & Hn). repeat split.
  - by rewrite Request_args.
  - by rewrite Request_args.
  - by rewrite RoamRequest_args.
  - by rewrite RoamRequest_args.
  - rewrite Actions_unfold, (append_nothing _ _ Ha). simpl.
    by destruct query, m.
  - rewrite Commands_unfold, (append_nothing _ _ Hn). simpl.
    by destruct query, m.
Qed.

(** X8.  An output format whose name is empty adds nothing to the
    command, whatever arguments it carries. *)
Theorem nameless_format_is_dropped (args' : list string)
    (req : Request.t) (roam : RoamRequest.t) m query :
  Request.GeofenceCommand (Request.Format req (NewCommand "" args'))
  = NewCommand (Request.Cmd req)
      ([Request.Key req] ++ option_tokens (Request.Options req) ++ ["FENCE"]
       ++ joined_tokens "DETECT" (Request.DetectActions req)
       ++ Name (Request.Area req) :: Args (Request.Area req))
  /\ RoamRequest.GeofenceCommand
       (RoamRequest.Format roam (NewCommand "" args'))
     = NewCommand "NEARBY"
         ([RoamRequest.Key roam] ++ option_tokens (RoamRequest.Options roam)
          ++ ["FENCE"]
          ++ joined_tokens "DETECT" (RoamRequest.DetectActions roam)
          ++ ["ROAM"; RoamRequest.Target roam; RoamRequest.Pattern roam;
              Itoa (RoamRequest.Meters roam)])
  /\ toCmd (Format query (NewCommand "" args')) m
     = toCmd (Format query (NewCommand "" [])) m.
Proof.
  repeat split.
  - by rewrite Request_args.
  - by rewrite RoamRequest_args.
Qed.
End Lineage.

(* ================================================================== *)
(** * More on the queue pipeline *)
(* ================================================================== *)

Section MorePipeline.
Import Fence.
Context {Response : Type} {DecResp : Unmarshal Response}.
Implicit Types (s : state (Response := Response)).

Lemma paced_started (events0 : list string) :
  paced events0 (started (Response := Response) events0).
Proof.
  unfold paced, taken. simpl. split; [by exists [] | lia].
Qed.

Lemma paced_step (events0 : list string) (a : actor) s :
  paced events0 s -> paced events0 (step a s).
Proof.
  intros [[consumed Hcons] Hbound]. unfold paced, taken in *.
  assert (length events0 = length consumed + length (events s)) as Hlen
    by (rewrite Hcons at 1; apply length_app).
  destruct a; simpl.
  - unfold task_step. destruct (goroutine s) as [|resp|] eqn:Hg.
    + destruct (events s) as [|event rest] eqn:He.
      * simpl in *. split; [by exists consumed | lia].
      * destruct (json_Unmarshal event) as [resp|err]; simpl in *.
        -- split; [|lia]. exists (consumed ++ [event]).
           by rewrite <- app_assoc.
        -- split; [|lia]. exists (consumed ++ [event]).
           by rewrite <- app_assoc.
    + destruct (length (ch s) <? capacity)%nat; simpl.
      * split; [by exists consumed|]. rewrite length_app. simpl. lia.
      * rewrite Hg. split; [by exists consumed | lia].
    + rewrite Hg. split; [by exists consumed | lia].
  - unfold consumer_step. destruct (ch s) as [|resp rest] eqn:Hch.
    + destruct (closed s); simpl; rewrite ?Hch;
        (split; [by exists consumed | simpl in *; lia]).
    + simpl in *. split; [by exists consumed|].
      rewrite length_app. simpl. lia.
Qed.

Lemma paced_run (events0 : list string) (schedule : list actor) s :
  paced events0 s -> paced events0 (run schedule s).
Proof.
  revert s. induction schedule as [|a schedule IH]; intros s Hp; [done|].
  simpl. apply IH. by apply paced_step.
Qed.

(** X9.  Back-pressure.  In every interleaving the queue holds at most
    ten responses, and the task has taken at most eleven payloads more
    off the stream than the consumer has received: ten queued and the
    one it is waiting to send. *)
Theorem task_runs_at_most_eleven_ahead
    (events0 : list string) (schedule : list actor) :
  length (ch (run schedule (started (Response := Response) events0))) <= 10
  /\ taken events0 (run schedule (started (Response := Response) events0))
     <= length (received (run schedule (started events0))) + 11.
Proof.
  pose proof (inv_run _ schedule _ (inv_started (Response := Response) events0))
    as (_ & _ & _ & Hcap).
  pose proof (paced_run events0 schedule _ (paced_started events0))
    as [_ Hbound].
  unfold capacity in Hcap. split; [done|].
  destruct (goroutine (run schedule (started events0))); lia.
Qed.





Lemma twin_step (bad : string) (e : error) (rest : list string)
    (a : actor) (s1 s2 : state (Response := Response)) :
  json_Unmarshal (T := Response) bad = inr e ->
  twin bad rest s1 s2 -> twin bad rest (step a s1) (step a s2).
Proof.
  intros Hbad (Hr & Hch & Hc & Hsc & Hg & He). unfold twin.
  destruct a; simpl.
  - unfold task_step. rewrite <- Hg.
    destruct (goroutine s1) as [|resp|] eqn:Hg1.
    + destruct He as [He Hnone]; [done|]. rewrite He.
      destruct (events s1) as [|event g] eqn:Hev; simpl in *.
      * rewrite Hbad. simpl. by repeat split.
      * destruct (json_Unmarshal event) as [resp|err] eqn:Hd; [|done].
        simpl. by repeat split.
    + destruct He as [He Hnone]; [done|]. rewrite <- Hch.
      destruct (length (ch s1) <? capacity)%nat; simpl.
      * by repeat split.
      * rewrite Hg1. by repeat split.
    + rewrite Hg1. by repeat split.
  - unfold consumer_step. rewrite <- Hch, <- Hc.
    destruct (ch s1) as [|resp q] eqn:Hq.
    + destruct (closed s1) eqn:Hcl; simpl.
      * repeat split; try done; try congruence; by apply He.
      * rewrite Hq. repeat split; try done; try congruence; by apply He.
    + simpl. repeat split; try done; try congruence; by apply He.
Qed.

(** X11.  A consumer cannot tell a decode failure from the end of the
    stream: under the same interleaving it has received the same
    responses and seen or not seen the closure, whether the stream ended
    after its decodable payloads or went on with one that does not
    decode. *)
Theorem decode_failure_looks_like_end_of_stream
    (good : list string) (resps : list Response)
    (bad : string) (e : error) (rest : list string)
    (schedule : list actor) :
  Forall2 decodes_to good resps ->
  json_Unmarshal (T := Response) bad = inr e ->
  observed (run schedule (started (Response := Response) good))
  = observed (run schedule (started (good ++ bad :: rest))).
Proof.
  intros Hgood Hbad.
  assert (forall s1 s2, twin bad rest s1 s2 ->
            twin bad rest (run schedule s1) (run schedule s2)) as Hrun.
  { induction schedule as [|a schedule IH]; intros s1 s2 Htw; [done|].
    simpl. apply IH. by apply (twin_step bad e). }
  destruct (Hrun (started good) (started (good ++ bad :: rest)))
    as (Hr & _ & _ & Hsc & _).
  - unfold twin. simpl. repeat split; try done.
    pose proof (decode_error_app good resps [] Hgood) as Hnone.
    by rewrite app_nil_r in Hnone.
  - unfold observed. by rewrite Hr, Hsc.
Qed.
End MorePipeline.

Section BothModes.
Import Fence GeofenceQueryBuilder.
Context {T : Type} {Req : GeofenceRequestable T}.
Context {Response : Type} {DecResp : Unmarshal Response}.
Context {GeofenceEvent : Type} {DecEvent : Unmarshal GeofenceEvent}.
Context {Verb : CommandVerb}.

Lemma trace_fold (l acc : list GeofenceEvent) :
  fold_left (fun trace resp => trace ++ [resp]) l acc = acc ++ l.
Proof.
  revert acc. induction l as [|x l IH]; intros acc; simpl.
  - by rewrite app_nil_r.
  - by rewrite IH, <- app_assoc.
Qed.

(** Decoders that accept the same payloads decode equally long
    prefixes of a stream. *)
Lemma decoded_lengths_agree (events0 : list string) :
  Forall (fun raw => accepted Response raw = accepted GeofenceEvent raw)
         events0 ->
  length (decoded (T := Response) events0)
  = length (decoded (T := GeofenceEvent) events0).
Proof.
  induction 1 as [|raw events0 Hraw _ IH]; [done|].
  unfold accepted in Hraw. simpl.
  destruct (json_Unmarshal (T := Response) raw),
           (json_Unmarshal (T := GeofenceEvent) raw);
    simpl; congruence.
Qed.

(** X12.  One subscription, two ways to consume it.  [Fence] decodes
    into responses and [Do] into events, each with its own decoder.
    When a request and a builder assemble the same command for the same
    transport, and the two decoders accept the same payloads of the
    stream, the responses the queue's consumer has received when it sees
    the closure and the events the callback was called with are the
    decoded images of one and the same prefix of the stream, payload by
    payload and in stream order. *)
Theorem both_modes_deliver_the_same_events
    (req : T) (query : GeofenceQueryBuilder.t) (c : Context) (m : Mem)
    (events0 : list string) (schedule : list actor) :
  GeofenceCommand req = toCmd query m ->
  ExecuteStream (client query) c (Name (toCmd query m)) (Args (toCmd query m))
  = (events0, None) ->
  Forall (fun raw => accepted Response raw = accepted GeofenceEvent raw)
         events0 ->
  sawClose (run schedule (started (Response := Response) events0)) = true ->
  Fence (Response := Response) (client query) c req
  = (Some (started events0), None)
  /\ exists n,
       Forall2 (decodes_to (T := Response)) (take n events0)
               (received (run schedule (started (Response := Response) events0)))
       /\ Forall2 (decodes_to (T := GeofenceEvent)) (take n events0)
            (Do (Verb := Verb) query c
                (fun resp trace => trace ++ [resp]) m []).2.
Proof.
  intros Hcmd Hstart Hagree Hsaw. split.
  - unfold Fence. cbv zeta. by rewrite Hcmd, Hstart.
  - pose proof (inv_run _ schedule _
                  (inv_started (Response := Response) events0)) as Hinv.
    destruct (inv_sawClose _ _ Hinv Hsaw) as [Hrecv _].
    exists (length (decoded (T := Response) events0)). split.
    + rewrite Hrecv. apply decoded_prefix.
    + rewrite (Do_started _ _ _ _ _ _ Hstart), range_events_closed. simpl.
      rewrite trace_fold. simpl.
      rewrite (decoded_lengths_agree events0 Hagree). apply decoded_prefix.
Qed.
End BothModes.

(* ================================================================== *)
(** * The delivery theorems on sample streams *)
(* ================================================================== *)

#[local] Existing Instance length_decoder.
#[local] Existing Instance spaced_command.

(** One malformed payload, then end of stream. *)
Lemma Fence_decode_failure_closes_queue_witness :
  let s0 := Fence.started (Response := nat) ([] ++ "" :: []) in
  Fence.Fence (Response := nat)
              (fixed_client [""] None) (ctx 0) sample_request
  = (Some s0, None)
  /\ Fence.received (Fence.run [Fence.Task; Fence.Consumer] s0) `prefix_of` []
  /\ (Fence.goroutine (Fence.run [Fence.Task; Fence.Consumer] s0)
      = Fence.Returned ->
      Fence.closed (Fence.run [Fence.Task; Fence.Consumer] s0) = true
      /\ Fence.received (Fence.run [Fence.Task; Fence.Consumer] s0)
         ++ Fence.ch (Fence.run [Fence.Task; Fence.Consumer] s0) = [])
  /\ (Fence.sawClose (Fence.run [Fence.Task; Fence.Consumer] s0) = true ->
      Fence.received (Fence.run [Fence.Task; Fence.Consumer] s0) = [])
  /\ (@nil string = [] ->
      Fence.received (Fence.run [Fence.Task; Fence.Consumer] s0) = [])
  /\ (exists more,
        Fence.sawClose (Fence.run ([Fence.Task; Fence.Consumer] ++ more) s0)
        = true)
  /\ Fence.sawClose
       (Fence.run (Fence.drain (DecResp := length_decoder) ([] ++ "" :: []))
                  s0) = true
  /\ Fence.received
       (Fence.run (Fence.drain (DecResp := length_decoder) ([] ++ "" :: []))
                  s0) = [].
Proof.
  apply (Fence_decode_failure_closes_queue (DecResp := length_decoder)
           (fixed_client [""] None) (ctx 0) sample_request
           [] [] "" "unexpected end of JSON input" []
           [Fence.Task; Fence.Consumer]).
  - reflexivity.
  - constructor.
  - reflexivity.
Defined.

(** A stream whose second payload is malformed, and one that decodes. *)
Lemma Do_decode_failure_returns_error_witness :
  GeofenceQueryBuilder.Do (DecEvent := length_decoder) (Verb := spaced_command)
    (sample_builder (fixed_client ["{}"; ""; "{}"] None)) (ctx 0)
    record_events empty_mem []
  = (Some "json unmarshal geofence response: unexpected end of JSON input",
     [2])
  /\ GeofenceQueryBuilder.Do (DecEvent := length_decoder)
       (Verb := spaced_command)
       (sample_builder (fixed_client ["{}"; "[1]"] None)) (ctx 0)
       record_events empty_mem []
     = (None, [2; 3]).
Proof.
  apply (Do_decode_failure_returns_error (DecEvent := length_decoder)
           (Verb := spaced_command)
           (sample_builder (fixed_client ["{}"; ""; "{}"] None))
           (sample_builder (fixed_client ["{}"; "[1]"] None))
           (ctx 0) record_events empty_mem []
           ["{}"] [2] "" "unexpected end of JSON input" ["{}"]
           ["{}"; "[1]"] [2; 3]).
  - reflexivity.
  - repeat constructor.
  - reflexivity.
  - reflexivity.
  - repeat constructor.
Defined.

(** A transport that refuses the subscription. *)
Lemma start_error_is_returned_witness :
  Fence.Fence (Response := nat)
    (fixed_client [] (Some "connection refused")) (ctx 0) sample_roam
  = (None, Some "connection refused")
  /\ GeofenceQueryBuilder.Do (DecEvent := length_decoder)
       (Verb := spaced_command)
       (sample_builder (fixed_client [] (Some "connection refused"))) (ctx 0)
       record_events empty_mem []
     = (Some
          "command: WITHIN fleet FENCE BOUNDS 30 -110 40 -100: connection refused",
        []).
Proof.
  apply (start_error_is_returned (Response := nat)
           (DecEvent := length_decoder) (Verb := spaced_command)
           (fixed_client [] (Some "connection refused")) (ctx 0) sample_roam
           (sample_builder (fixed_client [] (Some "connection refused")))
           record_events empty_mem [] [] [] "connection refused"
           "connection refused").
  - reflexivity.
  - reflexivity.
Defined.

(** Three good payloads around a bad one, the consumer reading once. *)
Lemma events_delivered_in_stream_order_witness :
  let s0 := Fence.started (Response := nat) ["{}"; "[1]"; ""; "{}"] in
  let schedule :=
    [Fence.Task; Fence.Task; Fence.Consumer; Fence.Task; Fence.Task] in
  (Fence.Fence (Response := nat)
     (fixed_client ["{}"; "[1]"; ""; "{}"] None) (ctx 0) sample_request
   = (Some s0, None)
   /\ (exists n,
         Forall2 (decodes_to (Dec := length_decoder))
                 (take n ["{}"; "[1]"; ""; "{}"])
                 (Fence.received (Fence.run schedule s0)))
   /\ (Fence.sawClose (Fence.run schedule s0) = true ->
       Fence.received (Fence.run schedule s0)
       = decoded (Dec := length_decoder) ["{}"; "[1]"; ""; "{}"])
   /\ (exists more,
         Fence.received (Fence.run (schedule ++ more) s0)
         = decoded (Dec := length_decoder) ["{}"; "[1]"; ""; "{}"]))
  /\ ((GeofenceQueryBuilder.Do (DecEvent := length_decoder)
         (Verb := spaced_command)
         (sample_builder (fixed_client ["{}"; "[1]"; ""; "{}"] None))
         (ctx 0) record_events empty_mem []).2
      = fold_left (fun w resp => record_events resp w)
                  (decoded (Dec := length_decoder) ["{}"; "[1]"; ""; "{}"]) []
      /\ (GeofenceQueryBuilder.Do (DecEvent := length_decoder)
            (Verb := spaced_command)
            (sample_builder (fixed_client ["{}"; "[1]"; ""; "{}"] None))
            (ctx 0) (fun resp trace => trace ++ [resp]) empty_mem []).2
         = decoded (Dec := length_decoder) ["{}"; "[1]"; ""; "{}"]
      /\ exists n,
           Forall2 (decodes_to (Dec := length_decoder))
                   (take n ["{}"; "[1]"; ""; "{}"])
                   (GeofenceQueryBuilder.Do (DecEvent := length_decoder)
                      (Verb := spaced_command)
                      (sample_builder
                         (fixed_client ["{}"; "[1]"; ""; "{}"] None))
                      (ctx 0) (fun resp trace => trace ++ [resp])
                      empty_mem []).2).
Proof.
  apply (events_delivered_in_stream_order (DecResp := length_decoder)
           (DecEvent := length_decoder) (Verb := spaced_command)
           (fixed_client ["{}"; "[1]"; ""; "{}"] None) (ctx 0) sample_request
           (sample_builder (fixed_client ["{}"; "[1]"; ""; "{}"] None))
           record_events empty_mem []
           ["{}"; "[1]"; ""; "{}"] ["{}"; "[1]"; ""; "{}"]
           [Fence.Task; Fence.Task; Fence.Consumer; Fence.Task; Fence.Task]).
  - reflexivity.
  - reflexivity.
Defined.

(* ================================================================== *)
(** * The further theorems on sample values *)
(* ================================================================== *)

Lemma builder_command_layout_witness :
  GeofenceQueryBuilder.toCmd sample_query.1 sample_query.2
  = NewCommand "NEARBY"
      ["fleet"; "FENCE"; "DETECT"; "enter,exit,enter";
       "ROAM"; "agents"; "*"; "500"].
Proof.
  apply (builder_command_layout sample_query.2 sample_query.1).
  vm_compute. repeat split; lia.
Defined.

Lemma builder_agrees_with_requests_witness :
  GeofenceQueryBuilder.toCmd sample_query.1 sample_query.2
  = RoamRequest.GeofenceCommand sample_roam.
Proof.
  apply (builder_agrees_with_requests sample_query.2 sample_query.1).
  - vm_compute. repeat split; lia.
  - reflexivity.
Defined.

Lemma fluent_chain_command_witness :
  GeofenceQueryBuilder.toCmd
    (fluent (Grow := GoSlice.nextslicecap) (Fmt := whole_floats)
            sample_calls roomy_query.1 roomy_query.2).1
    (fluent (Grow := GoSlice.nextslicecap) (Fmt := whole_floats)
            sample_calls roomy_query.1 roomy_query.2).2
  = NewCommand "WITHIN"
      ["fleet"; "ASC"; "NOFIELDS"; "MATCH"; "truck*"; "LIMIT"; "5";
       "WHERE"; "speed"; "10"; "90"; "FENCE"; "DETECT"; "enter,exit";
       "COMMANDS"; "set,del"; "HASHES"; "7";
       "BOUNDS"; "30"; "-110"; "40"; "-100"].
Proof.
  apply (fluent_chain_command (Grow := GoSlice.nextslicecap)
           (Fmt := whole_floats) sample_calls roomy_query.2 roomy_query.1).
  vm_compute. repeat split; lia.
Defined.

Lemma earlier_values_keep_their_command_witness :
  let '(q1, m1) :=
    fluent (Grow := GoSlice.nextslicecap) (Fmt := whole_floats)
           [CallOption (CallLimit 5); CallActions ["enter"]]
           roomy_query.1 roomy_query.2 in
  let '(q2, m2) :=
    fluent (Grow := GoSlice.nextslicecap) (Fmt := whole_floats)
           sample_calls q1 m1 in
  GeofenceQueryBuilder.toCmd roomy_query.1 m2
  = GeofenceQueryBuilder.toCmd roomy_query.1 roomy_query.2
  /\ GeofenceQueryBuilder.toCmd q1 m2 = GeofenceQueryBuilder.toCmd q1 m1.
Proof.
  apply (earlier_values_keep_their_command (Grow := GoSlice.nextslicecap)
           (Fmt := whole_floats)
           [CallOption (CallLimit 5); CallActions ["enter"]] sample_calls
           roomy_query.2 roomy_query.1).
  vm_compute. repeat split; lia.
Defined.

Lemma calls_without_arguments_witness :
  Request.GeofenceCommand (Request.Actions sample_request [])
  = NewCommand "WITHIN"
      ["fleet"; "MATCH"; "truck*"; "FENCE";
       "BOUNDS"; "30"; "-110"; "40"; "-100"]
  /\ Request.GeofenceCommand (Request.WithOptions sample_request [])
     = NewCommand "WITHIN"
         ["fleet"; "FENCE"; "DETECT"; "enter,exit,enter";
          "BOUNDS"; "30"; "-110"; "40"; "-100"]
  /\ RoamRequest.GeofenceCommand
       (RoamRequest.Actions
          (RoamRequest.WithOptions sample_roam [NewCommand "NOFIELDS" []]) [])
     = NewCommand "NEARBY"
         ["fleet"; "NOFIELDS"; "FENCE"; "ROAM"; "agents"; "*"; "500"]
  /\ RoamRequest.GeofenceCommand
       (RoamRequest.WithOptions
          (RoamRequest.WithOptions sample_roam [NewCommand "NOFIELDS" []]) [])
     = NewCommand "NEARBY"
         ["fleet"; "FENCE"; "DETECT"; "enter,exit,enter";
          "ROAM"; "agents"; "*"; "500"]
  /\ GeofenceQueryBuilder.Actions (Grow := GoSlice.nextslicecap)
       sample_query.1 [] sample_query.2
     = (sample_query.1, sample_query.2)
  /\ GeofenceQueryBuilder.Commands (Grow := GoSlice.nextslicecap)
       sample_query.1 [] sample_query.2
     = (sample_query.1, sample_query.2).
Proof.
  apply (calls_without_arguments (Grow := GoSlice.nextslicecap)
           sample_request
           (RoamRequest.WithOptions sample_roam [NewCommand "NOFIELDS" []])
           sample_query.2 sample_query.1).
  vm_compute. repeat split; lia.
Defined.

Lemma branch_keeps_origin_and_last_witness :
  let '(b2, m2) :=
    call (Grow := GoSlice.nextslicecap) (Fmt := whole_floats)
         (CallLimit 5) roomy_query.1 roomy_query.2 in
  let '(b3, m3) :=
    call (Grow := GoSlice.nextslicecap) (Fmt := whole_floats)
         (CallLimit 10) roomy_query.1 m2 in
  GoSlice.elems (commandArrays m3)
                (GeofenceQueryBuilder.searchOpts roomy_query.1)
  = GoSlice.elems (commandArrays roomy_query.2)
                  (GeofenceQueryBuilder.searchOpts roomy_query.1)
  /\ GoSlice.elems (commandArrays m3) (GeofenceQueryBuilder.searchOpts b3)
     = GoSlice.elems (commandArrays roomy_query.2)
                     (GeofenceQueryBuilder.searchOpts roomy_query.1)
       ++ [fragment (Fmt := whole_floats) (CallLimit 10)].
Proof.
  apply (branch_keeps_origin_and_last (Grow := GoSlice.nextslicecap)
           (Fmt := whole_floats) (CallLimit 5) (CallLimit 10)
           roomy_query.1 roomy_query.2).
  vm_compute. repeat split; lia.
Defined.

(** A fresh builder has no array yet, so its first two branches are
    apart. *)
Lemma branch_independent_when_full_witness :
  let '(b2, m2) :=
    call (Grow := GoSlice.nextslicecap) (Fmt := whole_floats)
         (CallLimit 5) (sample_builder (fixed_client [] None)) empty_mem in
  let '(b3, m3) :=
    call (Grow := GoSlice.nextslicecap) (Fmt := whole_floats)
         (CallLimit 10) (sample_builder (fixed_client [] None)) m2 in
  GoSlice.elems (commandArrays m3) (GeofenceQueryBuilder.searchOpts b2)
  = GoSlice.elems (commandArrays empty_mem)
      (GeofenceQueryBuilder.searchOpts (sample_builder (fixed_client [] None)))
    ++ [fragment (Fmt := whole_floats) (CallLimit 5)].
Proof.
  apply (branch_independent_when_full (Grow := GoSlice.nextslicecap)
           (Fmt := whole_floats) (CallLimit 5) (CallLimit 10)
           (sample_builder (fixed_client [] None)) empty_mem).
  - vm_compute. repeat split; lia.
  - reflexivity.
Defined.

Lemma branch_shares_when_room_witness :
  let '(b2, m2) :=
    call (Grow := GoSlice.nextslicecap) (Fmt := whole_floats)
         (CallLimit 5) roomy_query.1 roomy_query.2 in
  let '(b3, m3) :=
    call (Grow := GoSlice.nextslicecap) (Fmt := whole_floats)
         (CallLimit 10) roomy_query.1 m2 in
  GeofenceQueryBuilder.searchOpts b2 = GeofenceQueryBuilder.searchOpts b3
  /\ GoSlice.elems (commandArrays m3) (GeofenceQueryBuilder.searchOpts b2)
     = GoSlice.elems (commandArrays roomy_query.2)
                     (GeofenceQueryBuilder.searchOpts roomy_query.1)
       ++ [fragment (Fmt := whole_floats) (CallLimit 10)].
Proof.
  apply (branch_shares_when_room (Grow := GoSlice.nextslicecap)
           (Fmt := whole_floats) (CallLimit 5) (CallLimit 10)
           roomy_query.1 roomy_query.2).
  - vm_compute. repeat split; lia.
  - vm_compute. lia.
Defined.

Lemma decode_failure_looks_like_end_of_stream_witness :
  observed
    (Fence.run [Fence.Task; Fence.Task; Fence.Consumer; Fence.Task;
                Fence.Consumer]
               (Fence.started (Response := nat) ["{}"]))
  = observed
      (Fence.run [Fence.Task; Fence.Task; Fence.Consumer; Fence.Task;
                  Fence.Consumer]
                 (Fence.started (["{}"] ++ "" :: ["[1]"]))).
Proof.
  apply (decode_failure_looks_like_end_of_stream
           ["{}"] [2] "" "unexpected end of JSON input" ["[1]"]
           [Fence.Task; Fence.Task; Fence.Consumer; Fence.Task;
            Fence.Consumer]).
  - repeat constructor.
  - reflexivity.
Defined.

Lemma both_modes_deliver_the_same_events_witness :
  Fence.Fence (Response := nat)
    (GeofenceQueryBuilder.client
       (sample_builder (fixed_client ["{}"; "[1]"; ""; "{}"] None)))
    (ctx 0) (GeofenceWithin "fleet" sample_area)
  = (Some (Fence.started ["{}"; "[1]"; ""; "{}"]), None)
  /\ exists n,
       Forall2 (decodes_to (Dec := length_decoder))
               (take n ["{}"; "[1]"; ""; "{}"])
               (Fence.received
                  (Fence.run (Fence.drain ["{}"; "[1]"; ""; "{}"])
                     (Fence.started (Response := nat)
                                    ["{}"; "[1]"; ""; "{}"])))
       /\ Forall2 (decodes_to (Dec := text_decoder))
            (take n ["{}"; "[1]"; ""; "{}"])
            (GeofenceQueryBuilder.Do (DecEvent := text_decoder)
               (sample_builder (fixed_client ["{}"; "[1]"; ""; "{}"] None))
               (ctx 0) (fun resp trace => trace ++ [resp]) empty_mem []).2.
Proof.
  apply (both_modes_deliver_the_same_events (DecResp := length_decoder)
           (DecEvent := text_decoder)
           (GeofenceWithin "fleet" sample_area)
           (sample_builder (fixed_client ["{}"; "[1]"; ""; "{}"] None))
           (ctx 0) empty_mem ["{}"; "[1]"; ""; "{}"]
           (Fence.drain ["{}"; "[1]"; ""; "{}"])).
  - reflexivity.
  - reflexivity.
  - repeat constructor.
  - reflexivity.
Defined.
